(** * OfferMoreMore: the generation reuse and cache engine of [app.py]

    A shallow embedding of the caching, similarity and feedback code of
    [src/app.py] together with the properties of its specification.

    Conventions of the model.
    - A Python [str] is a [string]; the model covers ASCII text, on which
      [str.lower] changes the letters [A-Z] only, the white space of
      [str.strip], [str.split] and the pattern [\s] is the set
      [\t \n \v \f \r \x1c \x1d \x1e \x1f] and the blank, and [str.encode]
      yields one byte per character.
    - A SQLite [REAL] is an exact rational of [Qc].  The code only divides
      two small integers and compares the quotients with each other and with
      the literals [0.92], [3.5] and [0.0]; IEEE division is correctly
      rounded, hence monotone, and the quotients involved are further apart
      than the rounding error, so every such comparison has the outcome of
      the exact one.
    - A table is the list of its rows in [rowid] order, which is the order
      in which a full scan of a rowid table yields them.
    - A Python [int] is an integer of [Z].  SQLite holds signed integers of
      64 bits: binding any other one as a parameter of a statement raises
      [OverflowError], and so does the conversion of a form field that is
      not a number raise [ValueError]; an exception that a route does not
      catch ends the request in a server error, with nothing committed.
    - [hashlib.sha256] is written out after FIPS 180-4.
    - The files that a request writes (the saved upload, the provider's copy
      of the placeholder model) and the rendered pages are outside the
      model; a route returns the new store and the response it sends. *)

From Stdlib Require Import ZArith QArith Qcanon List Sorted String Ascii Bool Lia.
From stdpp Require Import base numbers list strings gmap pretty.

Local Open Scope string_scope.
Local Open Scope list_scope.
Local Open Scope Z_scope.

(** ** SHA-256 *)

Module SHA256.

(** Words are 32-bit integers held in [Z]; additions wrap around. *)
Definition wmask : Z := Z.ones 32.

Definition add32 (x y : Z) : Z := Z.land (x + y) wmask.

Definition rotr (n x : Z) : Z :=
  Z.lor (Z.shiftr x n) (Z.land (Z.shiftl x (32 - n)) wmask).

Definition shr (n x : Z) : Z := Z.shiftr x n.

Definition Ch (x y z : Z) : Z :=
  Z.lxor (Z.land x y) (Z.land (Z.lxor x wmask) z).

Definition Maj (x y z : Z) : Z :=
  Z.lxor (Z.lxor (Z.land x y) (Z.land x z)) (Z.land y z).

Definition bsig0 (x : Z) : Z := Z.lxor (Z.lxor (rotr 2 x) (rotr 13 x)) (rotr 22 x).
Definition bsig1 (x : Z) : Z := Z.lxor (Z.lxor (rotr 6 x) (rotr 11 x)) (rotr 25 x).
Definition ssig0 (x : Z) : Z := Z.lxor (Z.lxor (rotr 7 x) (rotr 18 x)) (shr 3 x).
Definition ssig1 (x : Z) : Z := Z.lxor (Z.lxor (rotr 17 x) (rotr 19 x)) (shr 10 x).

(** The round constants are the first 32 bits of the fractional parts of
    the cube roots of the first 64 primes, the initial state those of the
    square roots of the first 8. *)
Definition primes64 : list Z :=
  [2; 3; 5; 7; 11; 13; 17; 19; 23; 29; 31; 37; 41; 43; 47; 53;
   59; 61; 67; 71; 73; 79; 83; 89; 97; 101; 103; 107; 109; 113; 127; 131;
   137; 139; 149; 151; 157; 163; 167; 173; 179; 181; 191; 193; 197; 199;
   211; 223; 227; 229; 233; 239; 241; 251; 257; 263; 269; 271; 277; 281;
   283; 293; 307; 311].

(** Largest [r] below [2^bits] with [r^3 <= n], one bit at a time. *)
Fixpoint icbrt_bits (bits : nat) (n r : Z) : Z :=
  match bits with
  | O => r
  | S b =>
      let c := Z.lor r (Z.shiftl 1 (Z.of_nat b)) in
      icbrt_bits b n (if c * c * c <=? n then c else r)
  end.

Definition frac_cbrt32 (p : Z) : Z :=
  Z.land (icbrt_bits 36 (Z.shiftl p 96) 0) wmask.

Definition frac_sqrt32 (p : Z) : Z :=
  Z.land (Z.sqrt (Z.shiftl p 64)) wmask.

Definition K : list Z := Eval vm_compute in List.map frac_cbrt32 primes64.

Definition H0 : list Z := Eval vm_compute in List.map frac_sqrt32 (firstn 8 primes64).

(** Padding: the byte 0x80, zero bytes up to 56 modulo 64, then the bit
    length as a 64-bit big-endian integer. *)
Definition be_bytes (n : nat) (x : Z) : list Z :=
  List.map (fun i => Z.land (Z.shiftr x (8 * Z.of_nat i)) 255) (rev (seq 0 n)).

Definition pad (msg : list Z) : list Z :=
  let len := Z.of_nat (length msg) in
  let zeros := Z.to_nat ((55 - len) mod 64) in
  msg ++ [128] ++ repeat 0 zeros ++ be_bytes 8 (8 * len).

Definition be_word (bs : list Z) : Z :=
  fold_left (fun acc b => Z.lor (Z.shiftl acc 8) b) bs 0.

Fixpoint words_of (n : nat) (bs : list Z) : list Z :=
  match n with
  | O => []
  | S n' => be_word (firstn 4 bs) :: words_of n' (skipn 4 bs)
  end.

Fixpoint blocks_of (n : nat) (bs : list Z) : list (list Z) :=
  match n with
  | O => []
  | S n' => words_of 16 (firstn 64 bs) :: blocks_of n' (skipn 64 bs)
  end.

Definition nthw (l : list Z) (i : nat) : Z := nth i l 0.

(** Message schedule: [sched] holds [W_0 .. W_(t-1)], extended one word at
    a time. *)
Fixpoint schedule (n : nat) (sched : list Z) : list Z :=
  match n with
  | O => sched
  | S n' =>
      let t := length sched in
      let w := add32 (add32 (ssig1 (nthw sched (t - 2))) (nthw sched (t - 7)))
                     (add32 (ssig0 (nthw sched (t - 15))) (nthw sched (t - 16))) in
      schedule n' (sched ++ [w])
  end.

Record regs := Regs { ra : Z; rb : Z; rc : Z; rd : Z; re : Z; rf : Z; rg : Z; rh : Z }.

Definition round (s : regs) (kw : Z * Z) : regs :=
  let '(k, w) := kw in
  let t1 := add32 (add32 (add32 (add32 (rh s) (bsig1 (re s))) (Ch (re s) (rf s) (rg s))) k) w in
  let t2 := add32 (bsig0 (ra s)) (Maj (ra s) (rb s) (rc s)) in
  Regs (add32 t1 t2) (ra s) (rb s) (rc s) (add32 (rd s) t1) (re s) (rf s) (rg s).

Definition regs_of (h : list Z) : regs :=
  Regs (nthw h 0) (nthw h 1) (nthw h 2) (nthw h 3) (nthw h 4) (nthw h 5) (nthw h 6) (nthw h 7).

Definition compress (h : list Z) (block : list Z) : list Z :=
  let s := fold_left round (combine K (schedule 48 block)) (regs_of h) in
  [add32 (nthw h 0) (ra s); add32 (nthw h 1) (rb s); add32 (nthw h 2) (rc s);
   add32 (nthw h 3) (rd s); add32 (nthw h 4) (re s); add32 (nthw h 5) (rf s);
   add32 (nthw h 6) (rg s); add32 (nthw h 7) (rh s)].

Definition digest (msg : list Z) : list Z :=
  let p := pad msg in
  let h := fold_left compress (blocks_of (length p / 64) p) H0 in
  flat_map (be_bytes 4) h.

Definition hex_digit (d : Z) : ascii :=
  ascii_of_N (Z.to_N (if d <? 10 then 48 + d else 87 + d)).

Definition hex_of_bytes (bs : list Z) : string :=
  string_of_list_ascii
    (flat_map (fun b => [hex_digit (Z.shiftr b 4); hex_digit (Z.land b 15)]) bs).

End SHA256.

(** [s.encode()] on ASCII text. *)
Definition encode (s : string) : list Z :=
  List.map (fun c => Z.of_N (N_of_ascii c)) (list_ascii_of_string s).

(** [hashlib.sha256(b).hexdigest()] *)
Definition sha256_hexdigest (b : list Z) : string :=
  SHA256.hex_of_bytes (SHA256.digest b).

Global Arguments sha256_hexdigest : simpl never.


(** ** Text helpers of the Python runtime *)

(** White space as [str.isspace] sees it on ASCII. *)
Definition is_space (c : ascii) : bool :=
  let n := N_of_ascii c in
  ((9 <=? n) && (n <=? 13) || (28 <=? n) && (n <=? 32))%N.

Definition lower_char (c : ascii) : ascii :=
  let n := N_of_ascii c in
  if ((65 <=? n) && (n <=? 90))%N then ascii_of_N (n + 32) else c.

(** [s.lower()] *)
Fixpoint lower (s : string) : string :=
  match s with
  | EmptyString => EmptyString
  | String c r => String (lower_char c) (lower r)
  end.

Fixpoint lstrip (s : string) : string :=
  match s with
  | EmptyString => EmptyString
  | String c r => if is_space c then lstrip r else s
  end.

Fixpoint rstrip (s : string) : string :=
  match s with
  | EmptyString => EmptyString
  | String c r =>
      match rstrip r with
      | EmptyString => if is_space c then EmptyString else String c EmptyString
      | r' => String c r'
      end
  end.

(** [s.strip()] *)
Definition strip (s : string) : string := rstrip (lstrip s).

(** [re.sub(r"\s+", " ", s)]: every maximal run of white space becomes one
    blank; [in_run] tells that the previous character was white space. *)
Fixpoint sub_spaces (in_run : bool) (s : string) : string :=
  match s with
  | EmptyString => EmptyString
  | String c r =>
      if is_space c
      then (if in_run then sub_spaces true r else String " " (sub_spaces true r))
      else String c (sub_spaces false r)
  end.

(** [s.split()]: the maximal runs of characters that are not white space;
    [tok] is the token read so far. *)
Fixpoint split_from (tok : string) (s : string) : list string :=
  match s with
  | EmptyString => if decide (tok = "") then [] else [tok]
  | String c r =>
      if is_space c
      then (if decide (tok = "") then split_from "" r else tok :: split_from "" r)
      else split_from (tok +:+ String c "") r
  end.

Definition split (s : string) : list string := split_from "" s.

(** [s.rfind(c)]: the index of the last [c] in [s], [-1] when there is none. *)
Fixpoint rfind (c : ascii) (s : string) : Z :=
  match s with
  | EmptyString => -1
  | String a r =>
      let i := rfind c r in
      if 0 <=? i then 1 + i else if decide (a = c) then 0 else -1
  end.

(** [s[i:]] for [0 <= i] *)
Definition str_from (i : Z) (s : string) : string :=
  substring (Z.to_nat i) (String.length s - Z.to_nat i) s.

(** [s[:n]] *)
Definition str_upto (n : nat) (s : string) : string := substring 0 n s.

(** [os.path.basename] of [posixpath] *)
Definition basename (p : string) : string := str_from (rfind "/" p + 1) p.

(** The extension [os.path.splitext(p)[1]]: the text from the last dot on,
    when that dot comes after the last slash and after a character of the
    file name that is not a dot. *)
Definition splitext_ext (p : string) : string :=
  let sepIndex := rfind "/" p in
  let dotIndex := rfind "." p in
  if sepIndex <? dotIndex then
    if existsb (fun k => negb (bool_decide (String.get k p = Some "."%char)))
         (seq (Z.to_nat (sepIndex + 1)) (Z.to_nat (dotIndex - (sepIndex + 1))))
    then str_from dotIndex p
    else ""
  else "".

(** [str(d / name)] for a directory [d] other than the root and a relative
    one-component [name]. *)
Definition path_join (d name : string) : string := d +:+ "/" +:+ name.

(** ** Storage

    The three tables of [init_db].  The [CURRENT_TIMESTAMP] columns
    [created_at] and [last_used] are left out: no statement of the engine
    reads them.  A path is carried as its text; the rows hold [str(Path)]
    texts, which [Path(...)] followed by [str(...)] gives back unchanged. *)

Record generation_row := Generation {
  g_id : Z;
  g_prompt : string;
  g_mode : string;
  g_image_path : option string;
  g_provider : string;
  g_model_path : string;
  g_status : string;
  g_duration_ms : Z;
  g_cache_hit : Z;
  g_reuse_of : option Z
}.

Record feedback_row := Feedback {
  f_id : Z;
  f_generation_id : Z;
  f_rating : Z;
  f_issues : list string;
  f_comment : string
}.

Record cache_row := Cache {
  c_hash : string;
  c_prompt : string;
  c_model_path : string;
  c_provider : string;
  c_quality_score : option Qc
}.

Record db := Db {
  generations : list generation_row;
  feedbacks : list feedback_row;
  prompt_cache : list cache_row
}.

Global Instance generation_row_eq_dec : EqDecision generation_row.
Proof. solve_decision. Defined.
Global Instance feedback_row_eq_dec : EqDecision feedback_row.
Proof. solve_decision. Defined.
Global Instance cache_row_eq_dec : EqDecision cache_row.
Proof. solve_decision. Defined.

(** [INTEGER PRIMARY KEY AUTOINCREMENT]: one more than the largest id. *)
Definition next_id (ids : list Z) : Z := 1 + foldr Z.max 0 ids.

(** [SELECT * FROM prompt_cache WHERE hash=?] with [fetchone()] *)
Definition select_cache (conn : db) (h : string) : option cache_row :=
  List.find (fun r => bool_decide (c_hash r = h)) (prompt_cache conn).

(** [SELECT * FROM generations WHERE id=?] with [fetchone()] *)
Definition select_generation (conn : db) (gen_id : Z) : option generation_row :=
  List.find (fun g => bool_decide (g_id g = gen_id)) (generations conn).

(** ** Provider adapters *)

(** What a request finds around it: the two directories, the clock in
    seconds read by the upload step, and the time the provider call takes. *)
Record env := Env {
  UPLOAD_DIR : string;
  MODEL_DIR : string;
  time_s : Z;
  elapsed_ms : Z
}.

Record ProviderBase := Provider {
  slug : string;
  provider_generate : env -> string -> option string -> string * Z
}.

(** [MockProvider.generate]; the copy of the placeholder file that it writes
    is outside the model. *)
Definition mock_generate (e : env) (prompt : string) (image_path : option string)
  : string * Z :=
  let seed := if decide (prompt = "") then "image" else prompt in
  let out_path :=
    path_join (MODEL_DIR e)
      (str_upto 12 (sha256_hexdigest (encode seed)) +:+ "_cube.obj") in
  (out_path, elapsed_ms e).

Definition MockProvider : ProviderBase := Provider "mock" mock_generate.
Definition MeshyProvider : ProviderBase := Provider "meshy" mock_generate.
Definition KaedimProvider : ProviderBase := Provider "kaedim" mock_generate.
Definition TripoSRProvider : ProviderBase := Provider "tripoSR" mock_generate.

Definition PROVIDERS : list (string * ProviderBase) :=
  [("mock", MockProvider); ("meshy", MeshyProvider);
   ("kaedim", KaedimProvider); ("tripoSR", TripoSRProvider)].

(** [PROVIDERS.get(key, PROVIDERS["meshy"])] *)
Definition get_provider (key : string) : ProviderBase :=
  match List.find (fun kv => bool_decide (kv.1 = key)) PROVIDERS with
  | Some kv => kv.2
  | None => MeshyProvider
  end.

(** ** Caching and similarity *)

Definition normalize_prompt (p : string) : string :=
  let p := lower (strip p) in
  sub_spaces false p.

Definition prompt_hash (p : string) : string :=
  sha256_hexdigest (encode (normalize_prompt p)).

(** The cache key of a request, as [generate] and [feedback] both build it:
    the prompt in text mode, otherwise the prompt followed by the base name
    of the stored image, or by [none]. *)
Definition fingerprint (prompt mode : string) (image_path : option string) : string :=
  prompt_hash
    (if decide (mode = "text") then prompt
     else prompt +:+ "::image@" +:+
          match image_path with
          | Some p => if decide (p = "") then "none" else basename p
          | None => "none"
          end).

Definition tokens_of (p : string) : gset string :=
  list_to_set (split (normalize_prompt p)).

(** [len(a & b) / max(1, len(a | b))] *)
Definition jaccard (a b : gset string) : Qc :=
  (Qc_of_Z (Z.of_nat (size (a ∩ b))) / Qc_of_Z (Z.of_nat (Nat.max 1 (size (a ∪ b)))))%Qc.

(** One turn of the loop over the rows; the accumulator is
    [(best, best_score)]. *)
Definition scan_row (tokens : gset string) (acc : option cache_row * Qc) (r : cache_row)
  : option cache_row * Qc :=
  let tt := tokens_of (c_prompt r) in
  if decide (tt = ∅) then acc
  else
    let j := jaccard tokens tt in
    if decide (acc.2 < j)%Qc then (Some r, j) else acc.

Definition find_similar_prompt (conn : db) (p : string) (threshold : Qc)
  : option cache_row :=
  let tokens := tokens_of p in
  if decide (tokens = ∅) then None
  else
    let rows := prompt_cache conn in
    let '(best, best_score) := fold_left (scan_row tokens) rows (None, 0%Qc) in
    match best with
    | Some r => if decide (threshold ≤ best_score)%Qc then Some r else None
    | None => None
    end.

(** ** Routes *)

(** The fields of the submitted form; [None] is a field that was not sent.
    [form_image] is the file name of the uploaded part [image]. *)
Record form := Form {
  form_mode : option string;
  form_prompt : option string;
  form_provider : option string;
  form_reuse_policy : option string;
  form_image : option string
}.

Inductive response :=
| Redirect_detail (gen_id : Z)
| Not_found
| Detail_page (g : generation_row) (feedbacks : list feedback_row)
| Server_error.

(** A provider call: the provider's slug and the two arguments. *)
Definition provider_call : Type := string * string * option string.

Record outcome := Outcome {
  out_db : db;
  out_response : response;
  out_calls : list provider_call
}.

(** The stored path of the upload, lines 167-172. *)
Definition upload_path (e : env) (mode : string) (image : option string) : option string :=
  match image with
  | Some filename =>
      if decide (mode = "image") then
        if decide (filename = "") then None
        else
          let ext := lower (splitext_ext filename) in
          let ext := if decide (ext = "") then ".png" else ext in
          Some (path_join (UPLOAD_DIR e) ("upl_" +:+ pretty (time_s e) +:+ ext))
      else None
  | None => None
  end.

(** The closure [record_generation] with the variables it captures. *)
Definition record_generation (conn : db) (prompt mode : string)
    (image_path : option string) (_model_path _provider : string) (_dur_ms : Z)
    (_status : string) (_cache_hit : Z) (_reuse_of : option Z) : db * Z :=
  let gen_id := next_id (List.map g_id (generations conn)) in
  let row := Generation gen_id prompt mode image_path _provider _model_path
               _status _dur_ms _cache_hit _reuse_of in
  (Db (generations conn ++ [row]) (feedbacks conn) (prompt_cache conn), gen_id).

(** [x or 4.0] on a nullable [REAL]: [NULL] and [0.0] are false. *)
Definition or_default (x : option Qc) (d : Qc) : Qc :=
  match x with
  | Some v => if decide (v = 0%Qc) then d else v
  | None => d
  end.

(** [INSERT OR REPLACE INTO prompt_cache ...]: the row of that hash goes and
    the new one comes last, with the quality score the old one had. *)
Definition upsert_cache (conn : db) (h prompt model_path provider : string) : db :=
  let q := match select_cache conn h with
           | Some old => c_quality_score old
           | None => None
           end in
  Db (generations conn) (feedbacks conn)
     (List.filter (fun r => negb (bool_decide (c_hash r = h))) (prompt_cache conn)
      ++ [Cache h prompt model_path provider q]).

Definition generate (e : env) (conn : db) (request : form) : outcome :=
  let mode := default "text" (form_mode request) in
  let prompt := default "" (form_prompt request) in
  let provider_key := default "meshy" (form_provider request) in
  let reuse_policy := default "smart" (form_reuse_policy request) in
  let image_path := upload_path e mode (form_image request) in
  let h := fingerprint prompt mode image_path in
  let row := select_cache conn h in
  let fresh :=
    let provider := get_provider provider_key in
    let '(out_path, dur_ms) := provider_generate provider e prompt image_path in
    let '(conn1, gen_id) :=
      record_generation conn prompt mode image_path out_path (slug provider)
        dur_ms "ok" 0 None in
    let conn2 := upsert_cache conn1 h prompt out_path (slug provider) in
    Outcome conn2 (Redirect_detail gen_id) [(slug provider, prompt, image_path)] in
  match row with
  | Some r =>
      if bool_decide (reuse_policy = "always") || bool_decide (reuse_policy = "smart")
      then
        let '(conn1, gen_id) :=
          record_generation conn prompt mode image_path (c_model_path r)
            (c_provider r) 0 "ok" 1 None in
        Outcome conn1 (Redirect_detail gen_id) []
      else fresh
  | None =>
      if bool_decide (reuse_policy = "smart") then
        match find_similar_prompt conn prompt (Q2Qc 0.92) with
        | Some sim =>
            if decide (Q2Qc 3.5 ≤ or_default (c_quality_score sim) (Q2Qc 4.0))%Qc
            then
              let '(conn1, gen_id) :=
                record_generation conn prompt mode image_path (c_model_path sim)
                  "cache-similar" 0 "ok" 2 None in
              Outcome conn1 (Redirect_detail gen_id) []
            else fresh
        | None => fresh
        end
      else fresh
  end.

(** An integer that SQLite stores and binds: 64 bits, signed.  Binding a
    Python integer outside this range raises [OverflowError]. *)
Definition sqlite_integer (x : Z) : bool := (- 2 ^ 63 <=? x) && (x <? 2 ^ 63).

(** Whether [gen_id] binds in a statement on the store: an SQLite integer
    does, and so does every id that a row of [generations] carries, the ids
    of a table being SQLite integers. *)
Definition binds_generation_id (conn : db) (gen_id : Z) : bool :=
  sqlite_integer gen_id || bool_decide (gen_id ∈ List.map g_id (generations conn)).

(** [detail]; the statistics read from the model file are outside the
    model.  An id that does not bind ends the request in a server error. *)
Definition detail (conn : db) (gen_id : Z) : response :=
  if binds_generation_id conn gen_id then
    match select_generation conn gen_id with
    | None => Not_found
    | Some g =>
        Detail_page g
          (rev (List.filter (fun f => bool_decide (f_generation_id f = gen_id))
                  (feedbacks conn)))
    end
  else Server_error.

(** [SELECT AVG(rating) FROM feedback WHERE generation_id IN
    (SELECT id FROM generations WHERE prompt=?)] *)
Definition pooled_ratings (conn : db) (prompt : string) : list Z :=
  let ids := List.map g_id
               (List.filter (fun g => bool_decide (g_prompt g = prompt)) (generations conn)) in
  List.map f_rating
    (List.filter (fun f => bool_decide (f_generation_id f ∈ ids)) (feedbacks conn)).

Definition avg (ratings : list Z) : option Qc :=
  match ratings with
  | [] => None
  | _ => Some (Qc_of_Z (foldr Z.add 0%Z ratings) / Qc_of_Z (Z.of_nat (length ratings)))%Qc
  end.

(** [UPDATE prompt_cache SET quality_score=? WHERE hash=?] *)
Definition update_quality (conn : db) (q : Qc) (h : string) : db :=
  Db (generations conn) (feedbacks conn)
     (List.map (fun r => if decide (c_hash r = h)
                         then Cache (c_hash r) (c_prompt r) (c_model_path r)
                                (c_provider r) (Some q)
                         else r)
        (prompt_cache conn)).

(** [feedback] from line 241 on; [rating] is the integer that line 240 has
    read from the form field, [0] when the field is absent or empty.  The
    [INSERT] binds [gen_id] and [rating]: when one of them does not bind,
    the statement raises, nothing is stored and the request ends in a
    server error. *)
Definition feedback (conn : db) (gen_id : Z) (rating : Z) (issues : list string)
    (comment : string) : db * response :=
  let comment := strip comment in
  if binds_generation_id conn gen_id && sqlite_integer rating then
    let conn :=
      Db (generations conn)
         (feedbacks conn ++
          [Feedback (next_id (List.map f_id (feedbacks conn))) gen_id rating issues comment])
         (prompt_cache conn) in
    let conn :=
      match select_generation conn gen_id with
      | Some g =>
          let h := fingerprint (g_prompt g) (g_mode g) (g_image_path g) in
          match avg (pooled_ratings conn (g_prompt g)) with
          | Some avg_r => if decide (avg_r = 0%Qc) then conn else update_quality conn avg_r h
          | None => conn
          end
      | None => conn
      end in
    (conn, Redirect_detail gen_id)
  else (conn, Server_error).







(** What [generate] reads from a request. *)
Definition req_mode (request : form) : string := default "text" (form_mode request).
Definition req_prompt (request : form) : string := default "" (form_prompt request).
Definition req_policy (request : form) : string := default "smart" (form_reuse_policy request).
Definition req_image (e : env) (request : form) : option string :=
  upload_path e (req_mode request) (form_image request).
Definition req_fingerprint (e : env) (request : form) : string :=
  fingerprint (req_prompt request) (req_mode request) (req_image e request).

(** The record a call has written: the last row of the ledger. *)
Definition written (o : outcome) : option generation_row := last (generations (out_db o)).

(** ** Notions of the statements *)

(** The three ways a call of [generate] ends. *)
Section Outcomes.

Variable e : env.
Variable conn : db.
Variable request : form.

Let mode := req_mode request.
Let prompt := req_prompt request.
Let image_path := req_image e request.
Let h := req_fingerprint e request.
Let gen_id := next_id (List.map g_id (generations conn)).

Definition exact_outcome (r : cache_row) : outcome :=
  Outcome
    (Db (generations conn ++
           [Generation gen_id prompt mode image_path (c_provider r) (c_model_path r)
              "ok" 0 1 None])
        (feedbacks conn) (prompt_cache conn))
    (Redirect_detail gen_id) [].

Definition similar_outcome (sim : cache_row) : outcome :=
  Outcome
    (Db (generations conn ++
           [Generation gen_id prompt mode image_path "cache-similar" (c_model_path sim)
              "ok" 0 2 None])
        (feedbacks conn) (prompt_cache conn))
    (Redirect_detail gen_id) [].

Definition fresh_outcome : outcome :=
  let provider := get_provider (default "meshy" (form_provider request)) in
  let res := provider_generate provider e prompt image_path in
  Outcome
    (upsert_cache
       (Db (generations conn ++
              [Generation gen_id prompt mode image_path (slug provider) res.1
                 "ok" res.2 0 None])
           (feedbacks conn) (prompt_cache conn))
       h prompt res.1 (slug provider))
    (Redirect_detail gen_id) [(slug provider, prompt, image_path)].

End Outcomes.

(** What [feedback] does once its parameters bind. *)
Definition feedback_stored (conn : db) (gen_id : Z) (rating : Z) (issues : list string)
    (comment : string) : db * response :=
  let conn :=
    Db (generations conn)
       (feedbacks conn ++
        [Feedback (next_id (List.map f_id (feedbacks conn))) gen_id rating issues
           (strip comment)])
       (prompt_cache conn) in
  let conn :=
    match select_generation conn gen_id with
    | Some g =>
        let h := fingerprint (g_prompt g) (g_mode g) (g_image_path g) in
        match avg (pooled_ratings conn (g_prompt g)) with
        | Some avg_r => if decide (avg_r = 0%Qc) then conn else update_quality conn avg_r h
        | None => conn
        end
    | None => conn
    end in
  (conn, Redirect_detail gen_id).

(** The loop of [find_similar_prompt] over any score [f]: a row replaces the
    best one when its score is larger. *)
Definition keep_best {A : Type} (f : A -> Qc) (acc : option A * Qc) (r : A)
  : option A * Qc :=
  if decide (acc.2 < f r)%Qc then (Some r, f r) else acc.

Local Open Scope Qc_scope.

(** The score of the claim: the size of the intersection over the size of
    the union. *)
Definition jaccard_ratio (a b : gset string) : Qc :=
  Qc_of_Z (Z.of_nat (size (a ∩ b))) / Qc_of_Z (Z.of_nat (size (a ∪ b))).

Definition score (p : string) (r : cache_row) : Qc :=
  jaccard_ratio (tokens_of p) (tokens_of (c_prompt r)).

(** [r] is the first row of [rows] that reaches the largest score. *)
Definition first_best (rows : list cache_row) (p : string) (r : cache_row) : Prop :=
  ∃ i : nat,
    rows !! i = Some r
    ∧ (∀ (j : nat) r', rows !! j = Some r' -> score p r' ≤ score p r)
    ∧ (∀ (j : nat) r', (j < i)%nat -> rows !! j = Some r' -> score p r' < score p r).

(** The claim on the similarity scan at a given threshold. *)
Definition scan_returns_best (conn : db) (p : string) (threshold : Qc) : Prop :=
  ∀ r, find_similar_prompt conn p threshold = Some r
       ↔ tokens_of p ≠ ∅ ∧ first_best (prompt_cache conn) p r ∧ threshold ≤ score p r.

Local Close Scope Qc_scope.

(** ** Sample values *)

Definition demo_env : env := Env "/app/static/uploads" "/app/static/models" 1700000000 12.

Definition empty_db : db := Db [] [] [].

Definition dragon_request (policy : string) : form :=
  Form (Some "text") (Some "dragon") (Some "mock") (Some policy) None.

(** The store after one fresh generation for the prompt [dragon]. *)
Definition dragon_db : db :=
  Eval vm_compute in out_db (generate demo_env empty_db (dragon_request "smart")).

Definition dragon_row : cache_row :=
  Cache "a9c43be948c5cabd56ef2bacffb77cdaa5eec49dd5eb0cc4129cf3eda5f0e74c" "dragon"
    "/app/static/models/a9c43be948c5_cube.obj" "mock" None.

(** A cache that holds one row for the prompt [a red dragon] with the given
    quality score, and a request with the same words in another order. *)
Definition red_dragon_db (q : option Qc) : db :=
  Db [] [] [Cache "d0" "a red dragon" "/app/static/models/d0_cube.obj" "mock" q].

Definition dragon_red_request : form :=
  Form (Some "text") (Some "dragon a red") (Some "mock") (Some "smart") None.

(** The reading of the gate in which only [NULL] counts as [4.0]. *)
Definition null_as_4 (q : option Qc) : Qc :=
  match q with
  | Some v => v
  | None => Q2Qc 4.0
  end.

(** Prompts of [n] numbered words, to meet the two scores of the boundary:
    24 words against 24 with 23 in common out of 25, and 96 words against 95
    with 91 in common out of 100. *)
Fixpoint numbered (k n : nat) : string :=
  match n with
  | O => ""
  | S n' => "w" +:+ pretty k +:+ " " +:+ numbered (S k) n'
  end.

Definition one_row_db (prompt : string) : db :=
  Db [] [] [Cache "n0" prompt "/app/static/models/n0_cube.obj" "mock" None].

(** Three requests under [smart]: twelve numbered words, which are then
    rated [3], and thirteen numbered words, the twelve and one more.  The
    cache of [shadow_db] holds an entry for each; [shadow_request] asks for
    the twelve words in another order. *)
Definition words_request (prompt : string) : form :=
  Form (Some "text") (Some prompt) (Some "mock") (Some "smart") None.

Definition shadow_db : db :=
  let conn1 := out_db (generate demo_env empty_db (words_request (numbered 1 12))) in
  let conn2 := (feedback conn1 1 3 [] "").1 in
  out_db (generate demo_env conn2 (words_request (numbered 1 13))).

Definition shadow_request : form := words_request (numbered 2 11 +:+ "w1").

(** The entry of the thirteen words. *)
Definition shadowed_row : cache_row :=
  Cache "7f54833000013009240465e6e39ddf0c57372ecb16049a7e7b249918f8830f57"
    (numbered 1 13) "/app/static/models/0430ca3cd9cb_cube.obj" "mock" None.

(** The store after one request for [a red dragon]. *)
Definition red_dragon_store : db :=
  out_db (generate demo_env empty_db (words_request "a red dragon")).

(** The claim on the entries that similarity reuse offers: an entry whose
    quality score is [4.0] or [NULL] and whose overlap with the prompt is at
    least [0.92] is reused. *)
Definition good_entry_offered (e : env) (conn : db) (request : form) : Prop :=
  ∀ r, r ∈ prompt_cache conn ->
       c_quality_score r = Some (Q2Qc 4.0) ∨ c_quality_score r = None ->
       (Q2Qc 0.92 ≤ score (req_prompt request) r)%Qc ->
       ∃ g, written (generate e conn request) = Some g ∧ g_cache_hit g = 2.

(** The claim on feedback for an unknown generation, at one input. *)
Definition feedback_rejects_unknown (conn : db) (gen_id rating : Z)
    (issues : list string) (comment : string) : Prop :=
  select_generation conn gen_id = None ->
  (feedback conn gen_id rating issues comment).2 = Not_found
  ∧ feedbacks (feedback conn gen_id rating issues comment).1 = feedbacks conn.

(** The ratings of the claim: those of every feedback record whose
    generation carries the given prompt text. *)
Definition ratings_sharing_prompt (conn : db) (prompt : string) : list Z :=
  List.map f_rating
    (List.filter
       (fun f => existsb (fun g => bool_decide (g_id g = f_generation_id f)
                                   && bool_decide (g_prompt g = prompt))
                   (generations conn))
       (feedbacks conn)).

Definition mean (ratings : list Z) : Qc :=
  (Qc_of_Z (foldr Z.add 0%Z ratings) / Qc_of_Z (Z.of_nat (length ratings)))%Qc.

(** The store after a second request for [dragon], answered from the cache,
    and after the rating [5] for the first generation. *)
Definition dragon_twice_db : db :=
  Eval vm_compute in out_db (generate demo_env dragon_db (dragon_request "always")).

Definition dragon_rated_db : db := (feedback dragon_twice_db 1 5 [] "").1.

(** The rows of the cache that another fingerprint owns. *)
Definition other_rows (h : string) (conn : db) : list cache_row :=
  List.filter (fun r => negb (bool_decide (c_hash r = h))) (prompt_cache conn).

(** ** Notions of the further properties *)

(** A string of white space only. *)
Fixpoint all_space (s : string) : bool :=
  match s with
  | EmptyString => true
  | String c r => is_space c && all_space r
  end.

Definition starts_space (s : string) : bool :=
  match s with
  | EmptyString => false
  | String c _ => is_space c
  end.

(** [" ".join(ws)] *)
Fixpoint join_blank (ws : list string) : string :=
  match ws with
  | [] => ""
  | w :: rest =>
      match rest with
      | [] => w
      | _ => w +:+ " " +:+ join_blank rest
      end
  end.

(** [index]: the ten newest generations, [ORDER BY id DESC LIMIT 10]. *)
Fixpoint insert_by_id_desc (g : generation_row) (l : list generation_row)
  : list generation_row :=
  match l with
  | [] => [g]
  | x :: r => if g_id x <? g_id g then g :: l else x :: insert_by_id_desc g r
  end.

Definition order_by_id_desc (l : list generation_row) : list generation_row :=
  foldr insert_by_id_desc [] l.

Definition index (conn : db) : list generation_row :=
  firstn 10 (order_by_id_desc (generations conn)).

(** The stores that the routes produce from the empty one. *)
Inductive reachable : db -> Prop :=
| reachable_empty : reachable empty_db
| reachable_generate (e : env) (conn : db) (request : form) :
    reachable conn -> reachable (out_db (generate e conn request))
| reachable_feedback (conn : db) (gen_id rating : Z) (issues : list string)
    (comment : string) :
    reachable conn -> reachable (feedback conn gen_id rating issues comment).1.

Definition provider_slugs : list string := ["mock"; "meshy"; "kaedim"; "tripoSR"].

(** What holds of every reachable store. *)
Record store_invariant (conn : db) : Prop := StoreInvariant {
  inv_generation_ids :
    List.map g_id (generations conn)
    = List.map Z.of_nat (seq 1 (length (generations conn)));
  inv_feedback_ids :
    List.map f_id (feedbacks conn)
    = List.map Z.of_nat (seq 1 (length (feedbacks conn)));
  inv_hashes : NoDup (List.map c_hash (prompt_cache conn));
  inv_scores : ∀ r, r ∈ prompt_cache conn -> c_quality_score r ≠ Some 0%Qc;
  inv_origin :
    ∀ r, r ∈ prompt_cache conn ->
         ∃ g, g ∈ generations conn
              ∧ g_cache_hit g = 0
              ∧ c_hash r = fingerprint (g_prompt g) (g_mode g) (g_image_path g)
              ∧ c_prompt r = g_prompt g
              ∧ c_model_path r = g_model_path g
              ∧ c_provider r = g_provider g;
  inv_ledger :
    ∀ g, g ∈ generations conn ->
         g_status g = "ok"
         ∧ g_reuse_of g = None
         ∧ (g_cache_hit g = 0 ∨ g_cache_hit g = 1 ∨ g_cache_hit g = 2)
         ∧ (g_cache_hit g ≠ 0 -> g_duration_ms g = 0)
         ∧ (g_cache_hit g = 2 ↔ g_provider g = "cache-similar")
         ∧ (g_cache_hit g ≠ 2 -> g_provider g ∈ provider_slugs);
  inv_reuse :
    ∀ g, g ∈ generations conn ->
         g_cache_hit g ≠ 0 ->
         ∃ g0, g0 ∈ generations conn
               ∧ g_cache_hit g0 = 0
               ∧ g_model_path g0 = g_model_path g
               ∧ g_id g0 < g_id g
}.

(** A reachable store: one generation for [dragon], then the rating [5]. *)
Definition sample_store : db :=
  (feedback (out_db (generate demo_env empty_db (dragon_request "smart"))) 1 5 [] "").1.

(** A reachable store with a reuse: two requests for [dragon]. *)
Definition sample_reuse_store : db :=
  out_db (generate demo_env
            (out_db (generate demo_env empty_db (dragon_request "smart")))
            (dragon_request "always")).

(** * Properties *)

(** The test vectors of FIPS 180-4 with one and with two blocks. *)
Example sha256_abc :
  sha256_hexdigest (encode "abc")
  = "ba7816bf8f01cfea414140de5dae2223b00361a396177a9cb410ff61f20015ad".
Proof. vm_compute. reflexivity. Qed.

Example sha256_two_blocks :
  sha256_hexdigest (encode "abcdbcdecdefdefgefghfghighijhijkijkljklmklmnlmnomnopnopq")
  = "248d6a61d20638b8e5c026930c3e6039a33ce45964ff2167f6ecedd419db06c1".
Proof. vm_compute. reflexivity. Qed.


Section Generate.

Variable e : env.
Variable conn : db.
Variable request : form.

Let mode := req_mode request.
Let prompt := req_prompt request.
Let image_path := req_image e request.
Let h := req_fingerprint e request.
Let gen_id := next_id (List.map g_id (generations conn)).

Lemma generate_exact r :
  select_cache conn h = Some r ->
  req_policy request = "always" \/ req_policy request = "smart" ->
  generate e conn request = exact_outcome e conn request r.
Proof.
  intros Hrow Hpol. unfold generate.
  fold (req_mode request) (req_prompt request) (req_policy request).
  fold (req_image e request). fold (req_fingerprint e request). fold h.
  rewrite Hrow.
  destruct Hpol as [-> | ->]; reflexivity.
Qed.

Lemma generate_unfold :
  generate e conn request =
  match select_cache conn h with
  | Some r =>
      if bool_decide (req_policy request = "always")
         || bool_decide (req_policy request = "smart")
      then exact_outcome e conn request r else fresh_outcome e conn request
  | None =>
      if bool_decide (req_policy request = "smart") then
        match find_similar_prompt conn prompt (Q2Qc 0.92) with
        | Some sim =>
            if decide (Q2Qc 3.5 ≤ or_default (c_quality_score sim) (Q2Qc 4.0))%Qc
            then similar_outcome e conn request sim else fresh_outcome e conn request
        | None => fresh_outcome e conn request
        end
      else fresh_outcome e conn request
  end.
Proof.
  unfold generate, fresh_outcome.
  fold (req_mode request) (req_prompt request) (req_policy request).
  fold (req_image e request). fold (req_fingerprint e request).
  fold h mode prompt image_path.
  destruct (provider_generate _ e prompt image_path) as [out_path dur_ms].
  reflexivity.
Qed.

Lemma generate_similar sim :
  select_cache conn h = None ->
  req_policy request = "smart" ->
  find_similar_prompt conn prompt (Q2Qc 0.92) = Some sim ->
  (Q2Qc 3.5 ≤ or_default (c_quality_score sim) (Q2Qc 4.0))%Qc ->
  generate e conn request = similar_outcome e conn request sim.
Proof.
  intros Hrow Hpol Hsim Hq. rewrite generate_unfold, Hrow, Hpol, Hsim.
  rewrite bool_decide_eq_true_2 by reflexivity.
  rewrite decide_True by exact Hq. reflexivity.
Qed.

Lemma generate_gated sim :
  select_cache conn h = None ->
  req_policy request = "smart" ->
  find_similar_prompt conn prompt (Q2Qc 0.92) = Some sim ->
  ¬ (Q2Qc 3.5 ≤ or_default (c_quality_score sim) (Q2Qc 4.0))%Qc ->
  generate e conn request = fresh_outcome e conn request.
Proof.
  intros Hrow Hpol Hsim Hq. rewrite generate_unfold, Hrow, Hpol, Hsim.
  rewrite bool_decide_eq_true_2 by reflexivity.
  rewrite decide_False by exact Hq. reflexivity.
Qed.

Lemma generate_no_match :
  select_cache conn h = None ->
  req_policy request = "smart" ->
  find_similar_prompt conn prompt (Q2Qc 0.92) = None ->
  generate e conn request = fresh_outcome e conn request.
Proof.
  intros Hrow Hpol Hsim. rewrite generate_unfold, Hrow, Hpol, Hsim.
  rewrite bool_decide_eq_true_2 by reflexivity. reflexivity.
Qed.

Lemma generate_bypass :
  req_policy request ≠ "always" ->
  req_policy request ≠ "smart" ->
  generate e conn request = fresh_outcome e conn request.
Proof.
  intros Ha Hs. rewrite generate_unfold.
  rewrite !bool_decide_eq_false_2 by assumption.
  destruct (select_cache conn h); reflexivity.
Qed.

Lemma generate_always_miss :
  select_cache conn h = None ->
  req_policy request ≠ "smart" ->
  generate e conn request = fresh_outcome e conn request.
Proof.
  intros Hrow Hs. rewrite generate_unfold, Hrow.
  rewrite bool_decide_eq_false_2 by assumption. reflexivity.
Qed.

(** Every call ends in one of the three ways. *)
Lemma generate_cases :
  (∃ r, generate e conn request = exact_outcome e conn request r)
  ∨ (∃ sim, generate e conn request = similar_outcome e conn request sim)
  ∨ generate e conn request = fresh_outcome e conn request.
Proof.
  rewrite generate_unfold.
  destruct (select_cache conn h) as [r|].
  - destruct (_ || _); eauto.
  - destruct (bool_decide _); auto.
    destruct (find_similar_prompt _ _ _) as [sim|]; auto.
    destruct (decide _); eauto.
Qed.

Lemma written_exact r : written (exact_outcome e conn request r) =
  Some (Generation gen_id prompt mode image_path (c_provider r) (c_model_path r)
          "ok" 0 1 None).
Proof. unfold written, exact_outcome. simpl. apply last_snoc. Qed.

Lemma written_similar sim : written (similar_outcome e conn request sim) =
  Some (Generation gen_id prompt mode image_path "cache-similar" (c_model_path sim)
          "ok" 0 2 None).
Proof. unfold written, similar_outcome. simpl. apply last_snoc. Qed.

Lemma written_fresh : ∃ g, written (fresh_outcome e conn request) = Some g ∧ g_cache_hit g = 0.
Proof.
  unfold written, fresh_outcome, upsert_cache. simpl.
  rewrite last_snoc. eauto.
Qed.

End Generate.

(** C1. Under the policies [always] and [smart] a request whose fingerprint
    has a cache row is answered by exact reuse: the one record written has
    [cache_hit = 1], the row's model path and provider and duration [0]; no
    provider is called, the cache is left as it was, and the record is the
    same whatever quality score the row holds. *)
Theorem C1_exact_reuse (e : env) (conn : db) (request : form) (r : cache_row) :
  req_policy request = "always" ∨ req_policy request = "smart" ->
  select_cache conn (req_fingerprint e request) = Some r ->
  let o := generate e conn request in
  (∃ g, generations (out_db o) = generations conn ++ [g]
        ∧ out_response o = Redirect_detail (g_id g)
        ∧ g_prompt g = req_prompt request
        ∧ g_cache_hit g = 1
        ∧ g_model_path g = c_model_path r
        ∧ g_provider g = c_provider r
        ∧ g_duration_ms g = 0)
  ∧ out_calls o = []
  ∧ prompt_cache (out_db o) = prompt_cache conn
  ∧ (∀ conn' r',
       generations conn' = generations conn ->
       select_cache conn' (req_fingerprint e request) = Some r' ->
       c_model_path r' = c_model_path r ->
       c_provider r' = c_provider r ->
       generations (out_db (generate e conn' request)) = generations (out_db o)).
Proof.
  intros Hpol Hrow o. subst o.
  rewrite (generate_exact e conn request r Hrow Hpol).
  split; [|split; [|split]].
  - eexists. simpl. repeat split; reflexivity.
  - reflexivity.
  - reflexivity.
  - intros conn' r' Hg Hrow' Hm Hp.
    rewrite (generate_exact e conn' request r' Hrow' Hpol).
    unfold exact_outcome. simpl. rewrite Hg, Hm, Hp. reflexivity.
Qed.

Lemma C1_exact_reuse_witness :
  let o := generate demo_env dragon_db (dragon_request "always") in
  (∃ g, generations (out_db o) = generations dragon_db ++ [g]
        ∧ out_response o = Redirect_detail (g_id g)
        ∧ g_prompt g = "dragon"
        ∧ g_cache_hit g = 1
        ∧ g_model_path g = "/app/static/models/a9c43be948c5_cube.obj"
        ∧ g_provider g = "mock"
        ∧ g_duration_ms g = 0)
  ∧ out_calls o = [].
Proof.
  destruct (C1_exact_reuse demo_env dragon_db (dragon_request "always") dragon_row)
    as (Hg & Hc & _).
  - left. reflexivity.
  - vm_compute. reflexivity.
  - split; [exact Hg | exact Hc].
Defined.

(** C9. In the gate of similarity reuse the score [0.0] counts as [4.0],
    like [NULL]: under [smart], with no exact row, a match of the similarity
    scan at threshold [0.92] that holds the score [0.0] is reused, with
    [cache_hit = 2], although [0.0 < 3.5]. *)
Theorem C9_zero_score_offered (e : env) (conn : db) (request : form) (sim : cache_row) :
  req_policy request = "smart" ->
  select_cache conn (req_fingerprint e request) = None ->
  find_similar_prompt conn (req_prompt request) (Q2Qc 0.92) = Some sim ->
  c_quality_score sim = Some (Q2Qc 0.0) ->
  let o := generate e conn request in
  (∃ g, generations (out_db o) = generations conn ++ [g]
        ∧ g_cache_hit g = 2
        ∧ g_model_path g = c_model_path sim
        ∧ g_duration_ms g = 0)
  ∧ out_calls o = []
  ∧ (Q2Qc 0.0 < Q2Qc 3.5)%Qc.
Proof.
  intros Hpol Hrow Hsim Hq o. subst o.
  rewrite (generate_similar e conn request sim Hrow Hpol Hsim).
  - split; [|split].
    + eexists. simpl. repeat split; reflexivity.
    + reflexivity.
    + reflexivity.
  - rewrite Hq. vm_compute. discriminate.
Qed.

Lemma C9_zero_score_offered_witness :
  let o := generate demo_env (red_dragon_db (Some (Q2Qc 0.0))) dragon_red_request in
  ∃ g, generations (out_db o) = [g]
       ∧ g_cache_hit g = 2
       ∧ g_model_path g = "/app/static/models/d0_cube.obj"
       ∧ g_duration_ms g = 0.
Proof.
  destruct (C9_zero_score_offered demo_env (red_dragon_db (Some (Q2Qc 0.0)))
              dragon_red_request
              (Cache "d0" "a red dragon" "/app/static/models/d0_cube.obj" "mock"
                 (Some (Q2Qc 0.0))))
    as (Hg & _).
  - reflexivity.
  - vm_compute. reflexivity.
  - vm_compute. reflexivity.
  - reflexivity.
  - exact Hg.
Defined.

(** ** The similarity scan *)

Local Open Scope Qc_scope.

(** The loop of [find_similar_prompt] over any score that is never
    negative: it keeps the first row that reaches the largest score, and no
    row while every score is zero. *)
Section Scan.

Context {A : Type} (f : A -> Qc).

Lemma keep_best_invariant (l : list A) :
  let res := fold_left (keep_best f) l (None, 0) in
  0 ≤ res.2
  ∧ (∀ (j : nat) r, l !! j = Some r -> f r ≤ res.2)
  ∧ match res.1 with
    | None => res.2 = 0
    | Some r =>
        0 < res.2 ∧ f r = res.2
        ∧ ∃ i : nat, l !! i = Some r
                     ∧ ∀ (j : nat) r', (j < i)%nat -> l !! j = Some r' -> f r' < res.2
    end.
Proof.
  induction l as [|x l IH] using rev_ind; simpl.
  - split; [apply Qcle_refl|]. split; [|reflexivity].
    intros j r Hj. rewrite lookup_nil in Hj. discriminate.
  - rewrite fold_left_app. simpl.
    destruct (fold_left (keep_best f) l (None, 0)) as [b s]. simpl in IH.
    destruct IH as (Hs & Hall & Hb).
    unfold keep_best. simpl.
    destruct (decide (s < f x)) as [Hlt|Hge]; simpl.
    + split; [apply Qclt_le_weak; eapply Qcle_lt_trans; eassumption|].
      split.
      * intros j r Hj. apply lookup_app_Some in Hj as [Hj | [_ Hj]].
        -- apply Qclt_le_weak. eapply Qcle_lt_trans; [apply (Hall j r Hj) | exact Hlt].
        -- apply list_lookup_singleton_Some in Hj as [_ <-]. apply Qcle_refl.
      * split; [eapply Qcle_lt_trans; eassumption|]. split; [reflexivity|].
        exists (length l). split.
        -- rewrite lookup_app_r by reflexivity.
           replace (length l - length l)%nat with 0%nat by lia. reflexivity.
        -- intros j r' Hj Hr'. rewrite lookup_app_l in Hr' by exact Hj.
           eapply Qcle_lt_trans; [apply (Hall j r' Hr') | exact Hlt].
    + apply Qcnot_lt_le in Hge. split; [exact Hs|]. split.
      * intros j r Hj. apply lookup_app_Some in Hj as [Hj | [_ Hj]].
        -- apply (Hall j r Hj).
        -- apply list_lookup_singleton_Some in Hj as [_ <-]. exact Hge.
      * destruct b as [r|]; [|exact Hb].
        destruct Hb as (Hpos & Hfr & i & Hi & Hbefore).
        split; [exact Hpos|]. split; [exact Hfr|].
        exists i. split.
        -- apply lookup_app_Some. left. exact Hi.
        -- intros j r' Hj Hr'.
           assert (Hil : (i < length l)%nat) by (eapply lookup_lt_Some; exact Hi).
           rewrite lookup_app_l in Hr' by lia.
           apply (Hbefore j r' Hj Hr').
Qed.

End Scan.

Lemma jaccard_nonneg (a b : gset string) : 0 ≤ jaccard a b.
Proof.
  unfold jaccard, Qcdiv. apply Qcmult_nonneg_nonneg.
  - rewrite <- Z2Qc_inj_0. apply (proj1 (Z2Qc_inj_le _ _)). lia.
  - apply Qclt_le_weak, Qcinv_pos.
    rewrite <- Z2Qc_inj_0. apply (proj1 (Z2Qc_inj_lt _ _)). lia.
Qed.

Lemma jaccard_empty_r (a : gset string) : jaccard a ∅ = 0.
Proof.
  unfold jaccard, Qcdiv.
  rewrite (right_absorb_L (∅ : gset string) (∩)).
  rewrite size_empty. change (Z.of_nat 0) with 0%Z.
  rewrite Z2Qc_inj_0. apply Qcmult_0_l.
Qed.

Lemma jaccard_ratio_eq (a b : gset string) : a ≠ ∅ -> jaccard a b = jaccard_ratio a b.
Proof.
  intros Ha. unfold jaccard, jaccard_ratio.
  assert (size (a ∪ b) ≠ 0%nat).
  { intros Hz. apply size_empty_inv in Hz. apply Ha.
    apply leibniz_equiv. set_solver. }
  replace (Nat.max 1 (size (a ∪ b))) with (size (a ∪ b)) by lia. reflexivity.
Qed.

Lemma jaccard_ratio_empty_l (b : gset string) : jaccard_ratio ∅ b = 0.
Proof.
  unfold jaccard_ratio, Qcdiv.
  rewrite (left_absorb_L (∅ : gset string) (∩)).
  rewrite size_empty. change (Z.of_nat 0) with 0%Z.
  rewrite Z2Qc_inj_0. apply Qcmult_0_l.
Qed.

Lemma scan_row_keep_best (tokens : gset string) (rows : list cache_row)
    (acc : option cache_row * Qc) :
  0 ≤ acc.2 ->
  fold_left (scan_row tokens) rows acc
  = fold_left (keep_best (fun r => jaccard tokens (tokens_of (c_prompt r)))) rows acc.
Proof.
  revert acc. induction rows as [|r rows IH]; intros acc Hacc; [reflexivity|].
  simpl.
  assert (Hstep : scan_row tokens acc r
                  = keep_best (fun r => jaccard tokens (tokens_of (c_prompt r))) acc r).
  { unfold scan_row, keep_best.
    destruct (decide (tokens_of (c_prompt r) = ∅)) as [He|He]; [|reflexivity].
    rewrite He, jaccard_empty_r.
    rewrite decide_False; [reflexivity|]. apply Qcle_not_lt, Hacc. }
  rewrite Hstep. apply IH.
  unfold keep_best. destruct (decide _); simpl; [apply jaccard_nonneg | exact Hacc].
Qed.

Lemma find_similar_prompt_best (conn : db) (p : string) (threshold : Qc) :
  0 < threshold -> scan_returns_best conn p threshold.
Proof.
  intros Hthr r. unfold find_similar_prompt.
  destruct (decide (tokens_of p = ∅)) as [He|He].
  { split; [discriminate | intros [Hne _]; contradiction]. }
  rewrite scan_row_keep_best by apply Qcle_refl.
  pose proof (keep_best_invariant
                (fun r => jaccard (tokens_of p) (tokens_of (c_prompt r)))
                (prompt_cache conn)) as Hinv.
  simpl in Hinv.
  destruct (fold_left _ (prompt_cache conn) (None, 0)) as [best s].
  simpl in Hinv. destruct Hinv as (Hs & Hall & Hbest).
  assert (Hsc : ∀ r', jaccard (tokens_of p) (tokens_of (c_prompt r')) = score p r').
  { intros r'. apply jaccard_ratio_eq, He. }
  split.
  - destruct best as [b|]; [|discriminate].
    destruct (decide (threshold ≤ s)) as [Hle|]; [|discriminate].
    intros Hr. injection Hr as <-.
    destruct Hbest as (Hpos & Hfb & i & Hi & Hbefore).
    rewrite Hsc in Hfb. split; [exact He|]. split.
    + exists i. split; [exact Hi|]. rewrite Hfb. split.
      * intros j r' Hj. rewrite <- Hsc. apply (Hall j r' Hj).
      * intros j r' Hj Hr'. rewrite <- Hsc. apply (Hbefore j r' Hj Hr').
    + rewrite Hfb. exact Hle.
  - intros (_ & (i & Hi & Hmax & Hfirst) & Hle).
    assert (Hrs : score p r ≤ s) by (rewrite <- Hsc; apply (Hall i r Hi)).
    destruct best as [b|].
    + destruct Hbest as (Hpos & Hfb & k & Hk & Hbefore).
      rewrite Hsc in Hfb.
      assert (Heq : score p r = s).
      { apply Qcle_antisym; [exact Hrs|]. rewrite <- Hfb. apply (Hmax k b Hk). }
      rewrite decide_True by (rewrite <- Heq; exact Hle).
      f_equal.
      destruct (Nat.lt_trichotomy i k) as [Hik | [Hik | Hik]].
      * exfalso. specialize (Hbefore i r Hik Hi). rewrite Hsc, Heq in Hbefore.
        exact (Qclt_not_eq _ _ Hbefore eq_refl).
      * subst k. rewrite Hi in Hk. injection Hk as ->. reflexivity.
      * exfalso. specialize (Hfirst k b Hik Hk). rewrite Hfb, Heq in Hfirst.
        exact (Qclt_not_eq _ _ Hfirst eq_refl).
    + exfalso. subst s.
      apply (Qclt_not_le _ _ Hthr). eapply Qcle_trans; eassumption.
Qed.

(** With threshold [0] a row that shares no token with the query is the first
    best row and its score [0] reaches the threshold, yet the scan returns
    nothing. *)
Lemma C3_zero_threshold_counterexample :
  ¬ scan_returns_best (Db [] [] [Cache "c0" "cat" "/app/static/models/c0_cube.obj" "mock" None])
      "dog" 0.
Proof.
  intros Hclaim.
  specialize (Hclaim (Cache "c0" "cat" "/app/static/models/c0_cube.obj" "mock" None)).
  destruct Hclaim as [_ Hback].
  assert (Hnone : find_similar_prompt
                    (Db [] [] [Cache "c0" "cat" "/app/static/models/c0_cube.obj" "mock" None])
                    "dog" 0 = None) by (vm_compute; reflexivity).
  rewrite Hnone in Hback.
  assert (Hs : score "dog" (Cache "c0" "cat" "/app/static/models/c0_cube.obj" "mock" None) = 0).
  { apply Qc_is_canon. vm_compute. reflexivity. }
  enough (Hsome : @None cache_row = Some (Cache "c0" "cat" "/app/static/models/c0_cube.obj" "mock" None))
    by discriminate.
  apply Hback. split; [|split].
  - intros He. apply (f_equal size) in He. vm_compute in He. discriminate.
  - exists 0%nat. simpl. split; [reflexivity|]. split.
    + intros [|j] r' Hj; simpl in Hj; [|rewrite lookup_nil in Hj; discriminate].
      injection Hj as <-. apply Qcle_refl.
    + intros j r' Hj. lia.
  - rewrite Hs. apply Qcle_refl.
Qed.

(** C3, amended. For a positive threshold: the scan returns nothing when the
    query has no token; otherwise it returns a row exactly when that row is
    the first one, in scan order, to reach the largest Jaccard score (the
    size of the intersection of the two token sets over the size of their
    union) and that score is at least the threshold. At threshold [0.92] the
    best row is returned when its score is exactly [0.92], and no row of
    score [0.91] is returned. *)
Theorem C3_find_similar_prompt (conn : db) (p : string) (threshold : Qc) :
  0 < threshold ->
  (tokens_of p = ∅ -> find_similar_prompt conn p threshold = None)
  ∧ scan_returns_best conn p threshold
  ∧ (∀ r, first_best (prompt_cache conn) p r -> score p r = Q2Qc 0.92 ->
          find_similar_prompt conn p (Q2Qc 0.92) = Some r)
  ∧ (∀ r, score p r = Q2Qc 0.91 ->
          find_similar_prompt conn p (Q2Qc 0.92) ≠ Some r).
Proof.
  intros Hthr.
  assert (H92 : 0 < Q2Qc 0.92) by reflexivity.
  split; [|split; [|split]].
  - intros He. unfold find_similar_prompt. rewrite decide_True by exact He. reflexivity.
  - apply find_similar_prompt_best, Hthr.
  - intros r Hfb Hs. apply (find_similar_prompt_best conn p (Q2Qc 0.92) H92).
    split; [|split; [exact Hfb | rewrite Hs; apply Qcle_refl]].
    intros He. unfold score in Hs. rewrite He, jaccard_ratio_empty_l in Hs.
    apply (f_equal this) in Hs. vm_compute in Hs. discriminate.
  - intros r Hs Hfound.
    apply (find_similar_prompt_best conn p (Q2Qc 0.92) H92) in Hfound.
    destruct Hfound as (_ & _ & Hle). rewrite Hs in Hle.
    apply Hle. reflexivity.
Qed.

Lemma C3_find_similar_prompt_witness :
  scan_returns_best (red_dragon_db None) "dragon a red" (Q2Qc 0.92)
  ∧ find_similar_prompt (red_dragon_db None) "" (Q2Qc 0.92) = None.
Proof.
  destruct (C3_find_similar_prompt (red_dragon_db None) "dragon a red" (Q2Qc 0.92))
    as (_ & Hbest & _).
  - reflexivity.
  - split; [exact Hbest|].
    destruct (C3_find_similar_prompt (red_dragon_db None) "" (Q2Qc 0.92)) as (Hnone & _).
    + reflexivity.
    + apply Hnone. reflexivity.
Defined.

Example threshold_boundary :
  score (numbered 2 24) (Cache "n0" (numbered 1 24) "/app/static/models/n0_cube.obj" "mock" None)
  = Q2Qc 0.92
  ∧ find_similar_prompt (one_row_db (numbered 1 24)) (numbered 2 24) (Q2Qc 0.92)
    = Some (Cache "n0" (numbered 1 24) "/app/static/models/n0_cube.obj" "mock" None)
  ∧ score (numbered 5 96) (Cache "n0" (numbered 1 95) "/app/static/models/n0_cube.obj" "mock" None)
    = Q2Qc 0.91
  ∧ find_similar_prompt (one_row_db (numbered 1 95)) (numbered 5 96) (Q2Qc 0.92) = None.
Proof.
  split; [apply Qc_is_canon; vm_compute; reflexivity|].
  split; [vm_compute; reflexivity|].
  split; [apply Qc_is_canon; vm_compute; reflexivity|].
  vm_compute. reflexivity.
Qed.

Local Close Scope Qc_scope.

(** ** Feedback *)

Lemma select_generation_Some (conn : db) (gen_id : Z) (g : generation_row) :
  select_generation conn gen_id = Some g ->
  g ∈ generations conn ∧ g_id g = gen_id.
Proof.
  unfold select_generation. intros Hf. apply find_some in Hf as [Hin Hid].
  apply bool_decide_eq_true in Hid.
  split; [apply list_elem_of_In, Hin | exact Hid].
Qed.

(** On the empty store, feedback for generation [7] is stored and answered
    with the redirect. *)
Lemma C5_unknown_generation_counterexample :
  ¬ feedback_rejects_unknown empty_db 7 5 ["shape"] "nice"
  ∧ feedback empty_db 7 5 ["shape"] "nice"
    = (Db [] [Feedback 1 7 5 ["shape"] "nice"] [], Redirect_detail 7).
Proof.
  split; [|vm_compute; reflexivity].
  intros Hclaim. destruct Hclaim as [Hresp _]; [reflexivity|].
  vm_compute in Hresp. discriminate Hresp.
Qed.

Lemma sqlite_integer_range (x : Z) :
  sqlite_integer x = true ↔ - 2 ^ 63 <= x < 2 ^ 63.
Proof. unfold sqlite_integer. rewrite andb_true_iff, Z.leb_le, Z.ltb_lt. reflexivity. Qed.

Lemma select_generation_None (conn : db) (gen_id : Z) :
  select_generation conn gen_id = None -> gen_id ∉ List.map g_id (generations conn).
Proof.
  unfold select_generation. intros Hnone Hin.
  apply list_elem_of_fmap in Hin as (g & Hid & Hin).
  apply list_elem_of_In in Hin.
  pose proof (find_none _ _ Hnone g Hin) as Hg.
  apply bool_decide_eq_false in Hg. apply Hg. symmetry. exact Hid.
Qed.

Lemma binds_existing (conn : db) (gen_id : Z) (g : generation_row) :
  select_generation conn gen_id = Some g -> binds_generation_id conn gen_id = true.
Proof.
  intros Hg. apply select_generation_Some in Hg as [Hin Hid].
  unfold binds_generation_id. apply orb_true_iff. right.
  apply bool_decide_eq_true_2, list_elem_of_fmap. exists g.
  split; [symmetry; exact Hid | exact Hin].
Qed.

Lemma detail_existing (conn : db) (gen_id : Z) (g : generation_row) :
  select_generation conn gen_id = Some g ->
  detail conn gen_id
  = Detail_page g
      (rev (List.filter (fun f => bool_decide (f_generation_id f = gen_id))
              (feedbacks conn))).
Proof.
  intros Hg. unfold detail. rewrite (binds_existing conn gen_id g Hg), Hg. reflexivity.
Qed.

Lemma binds_unknown (conn : db) (gen_id : Z) :
  select_generation conn gen_id = None ->
  binds_generation_id conn gen_id = sqlite_integer gen_id.
Proof.
  intros Hnone. unfold binds_generation_id.
  rewrite (bool_decide_eq_false_2 _ (select_generation_None conn gen_id Hnone)).
  apply orb_false_r.
Qed.

Lemma feedback_bound (conn : db) (gen_id rating : Z) (issues : list string)
    (comment : string) :
  binds_generation_id conn gen_id = true ->
  sqlite_integer rating = true ->
  feedback conn gen_id rating issues comment
  = feedback_stored conn gen_id rating issues comment.
Proof. intros Hg Hr. unfold feedback, feedback_stored. rewrite Hg, Hr. reflexivity. Qed.

Lemma feedback_unbound (conn : db) (gen_id rating : Z) (issues : list string)
    (comment : string) :
  binds_generation_id conn gen_id && sqlite_integer rating = false ->
  feedback conn gen_id rating issues comment = (conn, Server_error).
Proof. intros Hg. unfold feedback. rewrite Hg. reflexivity. Qed.

(** C5, amended. Feedback for a generation id that no record carries does
    not fail with [NotFound]. When the id and the rating are 64-bit
    integers it is stored all the same: the feedback record is appended,
    the ledger and the cache stay as they were, and the answer is the
    redirect to the detail page of that id, which is the page that reports
    [Not found]. When one of the two is not, the [INSERT] raises: nothing
    is stored and the request ends in a server error. *)
Theorem C5_feedback_unknown_generation (conn : db) (gen_id rating : Z)
    (issues : list string) (comment : string) :
  select_generation conn gen_id = None ->
  let res := feedback conn gen_id rating issues comment in
  (sqlite_integer gen_id = true -> sqlite_integer rating = true ->
   res.2 = Redirect_detail gen_id
   ∧ feedbacks res.1
     = feedbacks conn
       ++ [Feedback (next_id (List.map f_id (feedbacks conn))) gen_id rating issues
             (strip comment)]
   ∧ generations res.1 = generations conn
   ∧ prompt_cache res.1 = prompt_cache conn
   ∧ detail res.1 gen_id = Not_found)
  ∧ (sqlite_integer gen_id = false ∨ sqlite_integer rating = false ->
     res = (conn, Server_error)).
Proof.
  intros Hnone res. subst res. split.
  - intros Hg Hr.
    rewrite feedback_bound by (rewrite ?binds_unknown; assumption).
    unfold feedback_stored. cbv zeta.
    change (select_generation (Db (generations conn) _ (prompt_cache conn)) gen_id)
      with (select_generation conn gen_id).
    rewrite Hnone. cbn [fst snd generations feedbacks prompt_cache].
    repeat (split; [reflexivity|]).
    unfold detail, binds_generation_id. cbn [generations]. rewrite Hg. cbn [orb].
    change (select_generation (Db (generations conn) _ (prompt_cache conn)) gen_id)
      with (select_generation conn gen_id).
    rewrite Hnone. reflexivity.
  - intros Hbad. apply feedback_unbound. rewrite (binds_unknown conn gen_id Hnone).
    destruct Hbad as [-> | ->]; [reflexivity | apply andb_false_r].
Qed.

Lemma C5_feedback_unknown_generation_witness :
  let res := feedback dragon_db 9 4 [] " fine " in
  res.2 = Redirect_detail 9
  ∧ feedbacks res.1 = [Feedback 1 9 4 [] "fine"]
  ∧ detail res.1 9 = Not_found.
Proof.
  destruct (C5_feedback_unknown_generation dragon_db 9 4 [] " fine ") as [Hok _].
  - reflexivity.
  - destruct Hok as (Hr & Hf & _ & _ & Hd); [reflexivity | reflexivity |].
    split; [exact Hr|]. split; [exact Hf | exact Hd].
Defined.

Lemma pooled_ratings_stated (conn : db) (prompt : string) :
  pooled_ratings conn prompt = ratings_sharing_prompt conn prompt.
Proof.
  unfold pooled_ratings, ratings_sharing_prompt. f_equal.
  apply List.filter_ext. intros f.
  apply eq_true_iff_eq. rewrite bool_decide_eq_true, existsb_exists.
  rewrite list_elem_of_fmap. split.
  - intros (g & Hid & Hg). apply list_elem_of_In, filter_In in Hg as [Hin Hp].
    exists g. split; [exact Hin|].
    rewrite Hp, andb_true_r. apply bool_decide_eq_true_2. symmetry. exact Hid.
  - intros (g & Hin & Hb). apply andb_true_iff in Hb as [Hid Hp].
    apply bool_decide_eq_true in Hid.
    exists g. split; [symmetry; exact Hid|].
    apply list_elem_of_In, filter_In. split; [exact Hin | exact Hp].
Qed.

(** Feedback on an existing generation appends the feedback record and,
    when the mean of the pooled ratings is not zero, writes that mean into
    every cache row whose hash is the fingerprint of the rated generation. *)
Lemma feedback_writes_mean (conn : db) (gen_id rating : Z) (issues : list string)
    (comment : string) (g : generation_row) :
  select_generation conn gen_id = Some g ->
  sqlite_integer rating = true ->
  let conn' := (feedback conn gen_id rating issues comment).1 in
  let ratings := ratings_sharing_prompt conn' (g_prompt g) in
  let h := fingerprint (g_prompt g) (g_mode g) (g_image_path g) in
  mean ratings ≠ 0%Qc ->
  ratings = ratings_sharing_prompt conn (g_prompt g) ++ [rating]
  ∧ feedbacks conn'
    = feedbacks conn
      ++ [Feedback (next_id (List.map f_id (feedbacks conn))) gen_id rating issues
            (strip comment)]
  ∧ generations conn' = generations conn
  ∧ prompt_cache conn'
    = List.map (fun r => if decide (c_hash r = h)
                         then Cache (c_hash r) (c_prompt r) (c_model_path r)
                                (c_provider r) (Some (mean ratings))
                         else r)
        (prompt_cache conn).
Proof.
  intros Hg Hrange. cbv zeta.
  pose proof (select_generation_Some conn gen_id g Hg) as [Hin Hid].
  set (h := fingerprint (g_prompt g) (g_mode g) (g_image_path g)).
  set (row := Feedback (next_id (List.map f_id (feedbacks conn))) gen_id rating issues
                (strip comment)).
  set (conn1 := Db (generations conn) (feedbacks conn ++ [row]) (prompt_cache conn)).
  assert (Hpool : pooled_ratings conn1 (g_prompt g)
                  = pooled_ratings conn (g_prompt g) ++ [rating]).
  { unfold pooled_ratings, conn1. simpl.
    rewrite List.filter_app, List.map_app. f_equal. simpl.
    rewrite bool_decide_eq_true_2; [reflexivity|].
    apply list_elem_of_fmap. exists g. split; [symmetry; exact Hid|].
    apply list_elem_of_In, filter_In. split; [apply list_elem_of_In, Hin|].
    apply bool_decide_eq_true_2. reflexivity. }
  assert (Havg : avg (pooled_ratings conn1 (g_prompt g))
                 = Some (mean (pooled_ratings conn1 (g_prompt g)))).
  { rewrite Hpool. destruct (pooled_ratings conn (g_prompt g)); reflexivity. }
  assert (Hfb : (feedback conn gen_id rating issues comment).1
                = match avg (pooled_ratings conn1 (g_prompt g)) with
                  | Some avg_r =>
                      if decide (avg_r = 0%Qc) then conn1 else update_quality conn1 avg_r h
                  | None => conn1
                  end).
  { rewrite (feedback_bound _ _ _ _ _ (binds_existing conn gen_id g Hg) Hrange).
    unfold feedback_stored. cbv zeta. fold row. fold conn1.
    replace (select_generation conn1 gen_id) with (Some g) by (symmetry; exact Hg).
    reflexivity. }
  rewrite Hfb, Havg. clear Hfb Havg.
  assert (Hr : ∀ c, generations c = generations conn1 -> feedbacks c = feedbacks conn1 ->
                    ratings_sharing_prompt c (g_prompt g) = pooled_ratings conn1 (g_prompt g)).
  { intros c Hcg Hcf. rewrite pooled_ratings_stated.
    unfold ratings_sharing_prompt. rewrite Hcg, Hcf. reflexivity. }
  destruct (decide (mean (pooled_ratings conn1 (g_prompt g)) = 0%Qc)) as [Hz|Hz].
  - intros Hmean. exfalso. apply Hmean. rewrite Hr by reflexivity. exact Hz.
  - intros _. rewrite Hr by reflexivity.
    split; [rewrite Hpool, pooled_ratings_stated; reflexivity|].
    repeat split; reflexivity.
Qed.

Lemma feedback_generations (conn : db) (gen_id rating : Z) (issues : list string)
    (comment : string) :
  generations (feedback conn gen_id rating issues comment).1 = generations conn.
Proof.
  unfold feedback.
  destruct (binds_generation_id conn gen_id && sqlite_integer rating); [|reflexivity].
  cbn [fst].
  destruct (select_generation _ gen_id) as [g|]; [|reflexivity].
  destruct (avg _) as [a|]; [|reflexivity].
  destruct (decide (a = 0%Qc)); reflexivity.
Qed.

Lemma feedback_feedbacks (conn : db) (gen_id rating : Z) (issues : list string)
    (comment : string) :
  binds_generation_id conn gen_id = true ->
  sqlite_integer rating = true ->
  feedbacks (feedback conn gen_id rating issues comment).1
  = feedbacks conn
    ++ [Feedback (next_id (List.map f_id (feedbacks conn))) gen_id rating issues
          (strip comment)].
Proof.
  intros Hbind Hrange. rewrite (feedback_bound _ _ _ _ _ Hbind Hrange).
  unfold feedback_stored. cbn [fst].
  destruct (select_generation _ gen_id) as [g|]; [|reflexivity].
  destruct (avg _) as [a|]; [|reflexivity].
  destruct (decide (a = 0%Qc)); reflexivity.
Qed.

Lemma select_update_quality (rows : list cache_row) (h : string) (q : Qc) (r : cache_row) :
  List.find (fun r => bool_decide (c_hash r = h)) rows = Some r ->
  List.find (fun r => bool_decide (c_hash r = h))
    (List.map (fun r => if decide (c_hash r = h)
                        then Cache (c_hash r) (c_prompt r) (c_model_path r)
                               (c_provider r) (Some q)
                        else r)
       rows)
  = Some (Cache h (c_prompt r) (c_model_path r) (c_provider r) (Some q)).
Proof.
  induction rows as [|x l IH]; simpl; [discriminate|].
  destruct (decide (c_hash x = h)) as [Hx|Hx]; simpl.
  - rewrite !bool_decide_eq_true_2 by exact Hx. intros Hrow. injection Hrow as <-.
    rewrite Hx. reflexivity.
  - rewrite !bool_decide_eq_false_2 by exact Hx. exact IH.
Qed.

Lemma mean_nonzero (ratings : list Z) :
  ratings ≠ [] -> Forall (fun r => 1 <= r <= 5) ratings -> mean ratings ≠ 0%Qc.
Proof.
  intros Hne Hall.
  assert (Hsum : Z.of_nat (length ratings) <= foldr Z.add 0 ratings).
  { clear Hne. induction Hall as [|r l Hr _ IH]; simpl; [lia|].
    rewrite Nat2Z.inj_succ. lia. }
  assert (Hlen : 0 < Z.of_nat (length ratings)).
  { destruct ratings; [contradiction | simpl; lia]. }
  unfold mean, Qcdiv. intros Hz.
  apply Qcmult_integral in Hz as [Hz | Hz].
  - rewrite <- Z2Qc_inj_0 in Hz. apply Z2Qc_inj in Hz. lia.
  - assert (Hpos : (0 < / Qc_of_Z (Z.of_nat (length ratings)))%Qc).
    { apply Qcinv_pos. rewrite <- Z2Qc_inj_0. apply (proj1 (Z2Qc_inj_lt _ _)). exact Hlen. }
    rewrite Hz in Hpos. exact (Qclt_not_eq _ _ Hpos eq_refl).
Qed.

(** C4. After feedback with a rating from 1 to 5 on an existing generation,
    the feedback record is appended and the quality score of every cache
    row whose hash is the fingerprint of the rated generation is the mean
    rating of all feedback records, the new one included, whose generation
    carries the same prompt text as the rated one, whatever its mode or
    image; the other rows and the other columns stay as they were. *)
Theorem C4_feedback_mean (conn : db) (gen_id rating : Z) (issues : list string)
    (comment : string) (g : generation_row) :
  select_generation conn gen_id = Some g ->
  1 <= rating <= 5 ->
  Forall (fun r => 1 <= r <= 5) (ratings_sharing_prompt conn (g_prompt g)) ->
  let conn' := (feedback conn gen_id rating issues comment).1 in
  let ratings := ratings_sharing_prompt conn' (g_prompt g) in
  let h := fingerprint (g_prompt g) (g_mode g) (g_image_path g) in
  ratings = ratings_sharing_prompt conn (g_prompt g) ++ [rating]
  ∧ feedbacks conn'
    = feedbacks conn
      ++ [Feedback (next_id (List.map f_id (feedbacks conn))) gen_id rating issues
            (strip comment)]
  ∧ generations conn' = generations conn
  ∧ prompt_cache conn'
    = List.map (fun r => if decide (c_hash r = h)
                         then Cache (c_hash r) (c_prompt r) (c_model_path r)
                                (c_provider r) (Some (mean ratings))
                         else r)
        (prompt_cache conn)
  ∧ (∀ r, select_cache conn h = Some r ->
          select_cache conn' h
          = Some (Cache h (c_prompt r) (c_model_path r) (c_provider r)
                    (Some (mean ratings)))).
Proof.
  intros Hg Hrating Hold. cbv zeta.
  assert (Hrange : sqlite_integer rating = true) by (apply sqlite_integer_range; lia).
  assert (Hratings : ratings_sharing_prompt (feedback conn gen_id rating issues comment).1
                       (g_prompt g)
                     = ratings_sharing_prompt conn (g_prompt g) ++ [rating]).
  { pose proof (select_generation_Some conn gen_id g Hg) as [Hin Hid].
    unfold ratings_sharing_prompt at 1 2.
    rewrite feedback_generations,
      (feedback_feedbacks _ _ _ _ _ (binds_existing conn gen_id g Hg) Hrange).
    rewrite List.filter_app, List.map_app. f_equal. simpl.
    replace (existsb _ (generations conn)) with true; [reflexivity|].
    symmetry. apply existsb_exists. exists g. split; [apply list_elem_of_In, Hin|].
    rewrite !bool_decide_eq_true_2 by (reflexivity || exact Hid). reflexivity. }
  assert (Hmean : mean (ratings_sharing_prompt (feedback conn gen_id rating issues comment).1
                          (g_prompt g)) ≠ 0%Qc).
  { rewrite Hratings. apply mean_nonzero.
    - destruct (ratings_sharing_prompt conn (g_prompt g)); discriminate.
    - apply Forall_app. split; [exact Hold|]. constructor; [exact Hrating | constructor]. }
  destruct (feedback_writes_mean conn gen_id rating issues comment g Hg Hrange Hmean)
    as (Hr & Hf & Hgen & Hc).
  split; [exact Hr|]. split; [exact Hf|]. split; [exact Hgen|]. split; [exact Hc|].
  intros r Hrow. unfold select_cache. rewrite Hc.
  apply select_update_quality, Hrow.
Qed.

Lemma C4_feedback_mean_witness :
  let conn' := (feedback dragon_rated_db 2 3 [] "").1 in
  ratings_sharing_prompt conn' "dragon" = [5; 3]
  ∧ mean [5; 3] = Q2Qc 4.0
  ∧ select_cache conn' (fingerprint "dragon" "text" None)
    = Some (Cache "a9c43be948c5cabd56ef2bacffb77cdaa5eec49dd5eb0cc4129cf3eda5f0e74c"
              "dragon" "/app/static/models/a9c43be948c5_cube.obj" "mock"
              (Some (mean [5; 3]))).
Proof.
  destruct (C4_feedback_mean dragon_rated_db 2 3 [] ""
              (Generation 2 "dragon" "text" None "mock"
                 "/app/static/models/a9c43be948c5_cube.obj" "ok" 0 1 None))
    as (Hr & _ & _ & _ & Hrow).
  - vm_compute. reflexivity.
  - lia.
  - assert (H5 : ratings_sharing_prompt dragon_rated_db "dragon" = [5])
      by (vm_compute; reflexivity).
    cbn [g_prompt]. rewrite H5. constructor; [lia | constructor].
  - assert (H5 : ratings_sharing_prompt dragon_rated_db "dragon" = [5])
      by (vm_compute; reflexivity).
    cbn [g_prompt g_mode g_image_path] in *. rewrite H5 in Hr.
    change ([5] ++ [3]) with [5; 3] in Hr. rewrite Hr in Hrow.
    split; [exact Hr|]. split; [apply Qc_is_canon; reflexivity|].
    assert (Hfp : fingerprint "dragon" "text" None
                  = "a9c43be948c5cabd56ef2bacffb77cdaa5eec49dd5eb0cc4129cf3eda5f0e74c")
      by (vm_compute; reflexivity).
    rewrite Hfp in Hrow |- *.
    apply (Hrow (Cache "a9c43be948c5cabd56ef2bacffb77cdaa5eec49dd5eb0cc4129cf3eda5f0e74c"
                   "dragon" "/app/static/models/a9c43be948c5_cube.obj" "mock"
                   (Some (mean [5])))).
    vm_compute. reflexivity.
Defined.

(** ** The cache write of a fresh generation *)

Lemma find_append {A} (P : A -> bool) (l1 l2 : list A) :
  List.find P (l1 ++ l2)
  = match List.find P l1 with
    | Some x => Some x
    | None => List.find P l2
    end.
Proof.
  induction l1 as [|x l1 IH]; simpl; [reflexivity|].
  destruct (P x); [reflexivity | exact IH].
Qed.

Lemma find_filter_negb {A} (P : A -> bool) (l : list A) :
  List.find P (List.filter (fun x => negb (P x)) l) = None.
Proof.
  induction l as [|x l IH]; simpl; [reflexivity|].
  destruct (P x) eqn:HP; simpl; [exact IH | rewrite HP; exact IH].
Qed.

Lemma find_filter_other {A} (P Q : A -> bool) (l : list A) :
  (∀ x, P x = true -> Q x = true) ->
  List.find P (List.filter Q l) = List.find P l.
Proof.
  intros HPQ. induction l as [|x l IH]; simpl; [reflexivity|].
  destruct (P x) eqn:HP.
  - rewrite (HPQ x HP). simpl. rewrite HP. reflexivity.
  - destruct (Q x); simpl; [rewrite HP|]; exact IH.
Qed.

Lemma select_cache_upsert (conn : db) (h prompt model_path provider : string) :
  select_cache (upsert_cache conn h prompt model_path provider) h
  = Some (Cache h prompt model_path provider
            (match select_cache conn h with
             | Some old => c_quality_score old
             | None => None
             end)).
Proof.
  unfold select_cache at 1, upsert_cache. simpl.
  rewrite find_append.
  rewrite (find_filter_negb (fun r => bool_decide (c_hash r = h))).
  simpl. rewrite bool_decide_eq_true_2 by reflexivity. reflexivity.
Qed.

Lemma select_cache_upsert_other (conn : db) (h h' prompt model_path provider : string) :
  h' ≠ h ->
  select_cache (upsert_cache conn h prompt model_path provider) h'
  = select_cache conn h'.
Proof.
  intros Hne. unfold select_cache, upsert_cache. simpl.
  rewrite find_append. rewrite find_filter_other.
  - destruct (List.find _ (prompt_cache conn)); [reflexivity|].
    simpl. rewrite bool_decide_eq_false_2 by (intros Heq; apply Hne; symmetry; exact Heq).
    reflexivity.
  - intros r Hr. apply bool_decide_eq_true in Hr.
    rewrite bool_decide_eq_false_2 by (rewrite Hr; exact Hne). reflexivity.
Qed.

Lemma filter_twice {A} (P : A -> bool) (l : list A) :
  List.filter P (List.filter P l) = List.filter P l.
Proof.
  induction l as [|x l IH]; simpl; [reflexivity|].
  destruct (P x) eqn:HP; simpl; [rewrite HP, IH; reflexivity | exact IH].
Qed.

(** C8. When a fresh generation (a record with [cache_hit = 0]) is written for
    a fingerprint that has a cache row, the row found for that fingerprint
    afterwards carries the new model path and provider and the quality score
    of the old row, and the rows of the other fingerprints are as before.
    When the record is a reuse ([cache_hit] 1 or 2) the cache is left
    untouched. *)
Theorem C8_upsert_keeps_quality (e : env) (conn : db) (request : form) :
  let h := req_fingerprint e request in
  let o := generate e conn request in
  (∀ old g,
     select_cache conn h = Some old ->
     written o = Some g ->
     g_cache_hit g = 0 ->
     select_cache (out_db o) h
     = Some (Cache h (req_prompt request) (g_model_path g) (g_provider g)
               (c_quality_score old))
     ∧ (∀ h', h' ≠ h -> select_cache (out_db o) h' = select_cache conn h')
     ∧ other_rows h (out_db o) = other_rows h conn)
  ∧ (∀ g,
       written o = Some g ->
       g_cache_hit g = 1 ∨ g_cache_hit g = 2 ->
       prompt_cache (out_db o) = prompt_cache conn).
Proof.
  intros h o. subst o.
  destruct (generate_cases e conn request) as [[r Hc] | [[sim Hc] | Hc]]; rewrite Hc.
  - split.
    + intros old g _ Hw H0. rewrite written_exact in Hw. injection Hw as <-. discriminate H0.
    + intros g _ _. reflexivity.
  - split.
    + intros old g _ Hw H0. rewrite written_similar in Hw. injection Hw as <-. discriminate H0.
    + intros g _ _. reflexivity.
  - split.
    + intros old g Hold Hw _.
      unfold written, fresh_outcome in Hw. simpl in Hw. rewrite last_snoc in Hw.
      injection Hw as <-. simpl. fold h.
      split; [|split].
      * unfold fresh_outcome. cbn [out_db]. rewrite select_cache_upsert.
        unfold select_cache at 1. cbn [prompt_cache]. fold (select_cache conn h).
        rewrite Hold. reflexivity.
      * intros h' Hne. unfold fresh_outcome. cbn [out_db].
        rewrite select_cache_upsert_other by exact Hne. reflexivity.
      * unfold other_rows, fresh_outcome, upsert_cache. cbn [out_db prompt_cache].
        rewrite List.filter_app, filter_twice. cbn [List.filter c_hash].
        rewrite bool_decide_eq_true_2 by reflexivity. apply app_nil_r.
    + intros g Hw Hhit. destruct (written_fresh e conn request) as (g' & Hg' & H0).
      rewrite Hw in Hg'. injection Hg' as ->. rewrite H0 in Hhit.
      destruct Hhit; discriminate.
Qed.

Lemma C8_upsert_keeps_quality_witness :
  let conn := (feedback dragon_db 1 5 [] "").1 in
  let o := generate demo_env conn (dragon_request "never") in
  ∃ r, select_cache (out_db o) (fingerprint "dragon" "text" None) = Some r
       ∧ c_provider r = "mock"
       ∧ c_quality_score r = Some (mean [5]).
Proof.
  destruct (C8_upsert_keeps_quality demo_env (feedback dragon_db 1 5 [] "").1
              (dragon_request "never")) as (Hfresh & _).
  destruct (Hfresh
              (Cache "a9c43be948c5cabd56ef2bacffb77cdaa5eec49dd5eb0cc4129cf3eda5f0e74c"
                 "dragon" "/app/static/models/a9c43be948c5_cube.obj" "mock"
                 (Some (mean [5])))
              (Generation 2 "dragon" "text" None "mock"
                 "/app/static/models/a9c43be948c5_cube.obj" "ok" 12 0 None))
    as (Hnew & _).
  - vm_compute. reflexivity.
  - vm_compute. reflexivity.
  - reflexivity.
  - eexists. split; [exact Hnew|]. split; reflexivity.
Defined.

(** Submitting a request twice under [always]: the second record is an exact
    reuse of the asset of the first, with duration [0]. *)
Lemma exact_reuse_idempotent (e : env) (conn : db) (request : form) :
  req_policy request = "always" ->
  ∃ g1 g2,
    written (generate e conn request) = Some g1
    ∧ written (generate e (out_db (generate e conn request)) request) = Some g2
    ∧ g_cache_hit g2 = 1
    ∧ g_model_path g2 = g_model_path g1
    ∧ g_duration_ms g2 = 0.
Proof.
  intros Hpol.
  destruct (select_cache conn (req_fingerprint e request)) as [r|] eqn:Hrow.
  - rewrite (generate_exact e conn request r Hrow (or_introl Hpol)).
    assert (Hrow' : select_cache (out_db (exact_outcome e conn request r))
                      (req_fingerprint e request) = Some r) by exact Hrow.
    rewrite (generate_exact e _ request r Hrow' (or_introl Hpol)).
    rewrite !written_exact. eexists. eexists. repeat split; reflexivity.
  - rewrite (generate_always_miss e conn request Hrow)
      by (rewrite Hpol; discriminate).
    set (o1 := fresh_outcome e conn request).
    assert (Hrow' : ∃ q, select_cache (out_db o1) (req_fingerprint e request)
                         = Some (Cache (req_fingerprint e request) (req_prompt request)
                                   (provider_generate
                                      (get_provider (default "meshy" (form_provider request)))
                                      e (req_prompt request) (req_image e request)).1
                                   (slug (get_provider
                                            (default "meshy" (form_provider request))))
                                   q)).
    { eexists. unfold o1, fresh_outcome. cbn [out_db]. apply select_cache_upsert. }
    destruct Hrow' as [q Hrow'].
    rewrite (generate_exact e (out_db o1) request _ Hrow' (or_introl Hpol)).
    rewrite written_exact.
    unfold o1, written, fresh_outcome, upsert_cache. cbn [out_db generations].
    rewrite last_snoc. eexists. eexists. repeat split; reflexivity.
Qed.

(** ** Fingerprints *)

Lemma prompt_hash_normalized (p1 p2 : string) :
  normalize_prompt p1 = normalize_prompt p2 -> prompt_hash p1 = prompt_hash p2.
Proof. unfold prompt_hash. intros ->. reflexivity. Qed.

(** In text mode the fingerprint depends on the normalized prompt only. *)
Lemma fingerprint_text_normalized (p1 p2 : string) (i1 i2 : option string) :
  normalize_prompt p1 = normalize_prompt p2 ->
  fingerprint p1 "text" i1 = fingerprint p2 "text" i2.
Proof. unfold fingerprint. simpl. apply prompt_hash_normalized. Qed.

(** C10. The key of an image request is built by appending to the prompt, so
    for every prompt [p] the text request for [p ++ "::image@none"] and the
    image request for [p] without upload have one fingerprint; after a fresh
    generation for the first, the second is answered from the cache with
    the asset of the first. *)
Theorem C10_text_image_collision (e : env) (conn : db) (p : string)
    (provider provider' : option string) :
  let text_request :=
    Form (Some "text") (Some (p +:+ "::image@none")) provider (Some "never") None in
  let image_request := Form (Some "image") (Some p) provider' (Some "always") None in
  fingerprint (p +:+ "::image@none") "text" None = fingerprint p "image" None
  ∧ req_fingerprint e text_request = req_fingerprint e image_request
  ∧ ∃ g1 g2,
      written (generate e conn text_request) = Some g1
      ∧ written (generate e (out_db (generate e conn text_request)) image_request) = Some g2
      ∧ g_cache_hit g1 = 0
      ∧ g_cache_hit g2 = 1
      ∧ g_model_path g2 = g_model_path g1.
Proof.
  intros text_request image_request.
  assert (Hfp : req_fingerprint e text_request = req_fingerprint e image_request)
    by reflexivity.
  split; [reflexivity|]. split; [exact Hfp|].
  rewrite (generate_bypass e conn text_request) by discriminate.
  set (o1 := fresh_outcome e conn text_request).
  assert (Hrow : select_cache (out_db o1) (req_fingerprint e image_request)
                 = Some (Cache (req_fingerprint e text_request) (req_prompt text_request)
                           (provider_generate (get_provider (default "meshy" provider)) e
                              (req_prompt text_request) (req_image e text_request)).1
                           (slug (get_provider (default "meshy" provider)))
                           (match select_cache conn (req_fingerprint e text_request) with
                            | Some old => c_quality_score old
                            | None => None
                            end))).
  { rewrite <- Hfp. unfold o1, fresh_outcome. cbn [out_db].
    rewrite select_cache_upsert. reflexivity. }
  rewrite (generate_exact e (out_db o1) image_request _ Hrow) by (left; reflexivity).
  rewrite written_exact.
  unfold o1, written, fresh_outcome. simpl. rewrite last_snoc.
  eexists. eexists. repeat split; reflexivity.
Qed.

(** C6. Two image-mode requests whose prompts [a ] and [a] normalize to the
    same text, both without upload: their fingerprints differ, because the
    image suffix is appended before the prompt is normalized and the
    trailing blank ends up inside the key. Under [always] the second request
    misses the cache entry of the first; the same two prompts in text mode
    share one fingerprint and the second is an exact reuse. *)
Theorem C6_trailing_space_image_fingerprint :
  let image_request p := Form (Some "image") (Some p) (Some "mock") (Some "always") None in
  let text_request p := Form (Some "text") (Some p) (Some "mock") (Some "always") None in
  let second request1 request2 :=
    written (generate demo_env (out_db (generate demo_env empty_db request1)) request2) in
  normalize_prompt "a " = normalize_prompt "a"
  ∧ req_image demo_env (image_request "a ") = req_image demo_env (image_request "a")
  ∧ req_fingerprint demo_env (image_request "a ") ≠ req_fingerprint demo_env (image_request "a")
  ∧ g_cache_hit <$> second (image_request "a") (image_request "a ") = Some 0
  ∧ req_fingerprint demo_env (text_request "a ") = req_fingerprint demo_env (text_request "a")
  ∧ g_cache_hit <$> second (text_request "a") (text_request "a ") = Some 1.
Proof.
  cbv zeta. split; [reflexivity|]. split; [reflexivity|].
  split; [vm_compute; discriminate|].
  split; [vm_compute; reflexivity|].
  split; [vm_compute; reflexivity|].
  vm_compute. reflexivity.
Qed.

(** C7. Two image-mode requests for the prompt [x] whose uploads arrive in
    the same second and carry extensions that differ in white space only:
    the stored base names differ, the fingerprints are the same. *)
Theorem C7_whitespace_basenames_collide :
  let image_request name := Form (Some "image") (Some "x") None None (Some name) in
  let stored name := basename <$> req_image demo_env (image_request name) in
  stored "a.png" = Some "upl_1700000000.png"
  ∧ stored "a.png " = Some "upl_1700000000.png "
  ∧ req_fingerprint demo_env (image_request "a.png")
    = req_fingerprint demo_env (image_request "a.png ")
  ∧ stored "scan.v 1" = Some "upl_1700000000.v 1"
  ∧ stored "scan.v  1" = Some "upl_1700000000.v  1"
  ∧ req_fingerprint demo_env (image_request "scan.v 1")
    = req_fingerprint demo_env (image_request "scan.v  1").
Proof.
  cbv zeta.
  split; [vm_compute; reflexivity|]. split; [vm_compute; reflexivity|].
  split; [vm_compute; reflexivity|]. split; [vm_compute; reflexivity|].
  split; vm_compute; reflexivity.
Qed.

(** With two ordinary stored names the four fingerprints of the prompt [x]
    are pairwise distinct. *)
Example fingerprints_of_x_separate :
  NoDup [fingerprint "x" "text" None;
         fingerprint "x" "image" None;
         fingerprint "x" "image" (Some "/app/static/uploads/upl_1700000000.png");
         fingerprint "x" "image" (Some "/app/static/uploads/upl_1700000001.png")].
Proof. apply (bool_decide_unpack _). vm_compute. exact I. Qed.


(** * Further properties *)

(** ** Normalization and words *)

Lemma is_space_lower_char (c : ascii) : is_space (lower_char c) = is_space c.
Proof. destruct c as [[] [] [] [] [] [] [] []]; reflexivity. Qed.

Lemma lower_char_idem (c : ascii) : lower_char (lower_char c) = lower_char c.
Proof. destruct c as [[] [] [] [] [] [] [] []]; reflexivity. Qed.

Lemma lower_idem (s : string) : lower (lower s) = lower s.
Proof.
  induction s as [|c r IH]; simpl; [reflexivity|].
  rewrite lower_char_idem, IH. reflexivity.
Qed.

Lemma append_cons (c : ascii) (r b : string) : String c r +:+ b = String c (r +:+ b).
Proof. reflexivity. Qed.

Lemma lower_app (a b : string) : lower (a +:+ b) = lower a +:+ lower b.
Proof.
  induction a as [|c r IH]; [reflexivity|].
  rewrite append_cons. cbn [lower]. rewrite append_cons, IH. reflexivity.
Qed.

Lemma all_space_lower (s : string) : all_space (lower s) = all_space s.
Proof.
  induction s as [|c r IH]; simpl; [reflexivity|].
  rewrite is_space_lower_char, IH. reflexivity.
Qed.

Lemma lower_lstrip (s : string) : lower (lstrip s) = lstrip (lower s).
Proof.
  induction s as [|c r IH]; simpl; [reflexivity|].
  rewrite is_space_lower_char. destruct (is_space c); [exact IH | reflexivity].
Qed.

Lemma lower_rstrip (s : string) : lower (rstrip s) = rstrip (lower s).
Proof.
  induction s as [|c r IH]; simpl; [reflexivity|].
  rewrite <- IH, is_space_lower_char.
  destruct (rstrip r) as [|c' r']; simpl; [|reflexivity].
  destruct (is_space c); reflexivity.
Qed.

Lemma lower_sub_spaces (b : bool) (s : string) :
  lower (sub_spaces b s) = sub_spaces b (lower s).
Proof.
  revert b. induction s as [|c r IH]; intros b; simpl; [reflexivity|].
  rewrite is_space_lower_char.
  destruct (is_space c); [destruct b|]; simpl; rewrite ?IH; reflexivity.
Qed.

Lemma append_snoc (tok : string) (c : ascii) (s : string) :
  (tok +:+ String c "") +:+ s = tok +:+ String c s.
Proof.
  induction tok as [|a t IH]; [reflexivity|].
  rewrite !append_cons, IH. reflexivity.
Qed.

Lemma append_snoc_nonempty (tok : string) (c : ascii) : tok +:+ String c "" ≠ "".
Proof. destruct tok; discriminate. Qed.

Lemma rstrip_fixed_tail (c : ascii) (r : string) :
  rstrip (String c r) = String c r ->
  rstrip r = r ∧ (is_space c = true -> r ≠ "").
Proof.
  simpl. destruct (rstrip r) as [|c' r'] eqn:Hr.
  - destruct (is_space c) eqn:Hc; [discriminate|].
    intros Heq. injection Heq as <-. split; [reflexivity | discriminate].
  - intros Heq. injection Heq as <-. split; [reflexivity | discriminate].
Qed.

Lemma rstrip_cons (c : ascii) (r : string) :
  rstrip (String c r)
  = match rstrip r with
    | EmptyString => if is_space c then EmptyString else String c EmptyString
    | r' => String c r'
    end.
Proof. reflexivity. Qed.

Lemma rstrip_idem (s : string) : rstrip (rstrip s) = rstrip s.
Proof.
  induction s as [|c r IH]; [reflexivity|].
  rewrite rstrip_cons. destruct (rstrip r) as [|c' r'] eqn:Hr.
  - destruct (is_space c) eqn:Hc; [reflexivity|].
    rewrite rstrip_cons. simpl. rewrite Hc. reflexivity.
  - rewrite rstrip_cons, IH. reflexivity.
Qed.

Lemma starts_space_lstrip (s : string) : starts_space (lstrip s) = false.
Proof.
  induction s as [|c r IH]; simpl; [reflexivity|].
  destruct (is_space c) eqn:Hc; [exact IH | simpl; exact Hc].
Qed.

Lemma starts_space_rstrip (s : string) :
  starts_space s = false -> starts_space (rstrip s) = false.
Proof.
  destruct s as [|c r]; simpl; [reflexivity|]. intros Hc.
  destruct (rstrip r); [rewrite Hc; simpl; exact Hc | simpl; exact Hc].
Qed.

Lemma split_from_lstrip (s : string) : split_from "" (lstrip s) = split_from "" s.
Proof.
  induction s as [|c r IH]; simpl; [reflexivity|].
  destruct (is_space c) eqn:Hc; [exact IH | simpl; rewrite Hc; reflexivity].
Qed.

Lemma split_from_rstrip (tok s : string) :
  split_from tok (rstrip s) = split_from tok s.
Proof.
  revert tok. induction s as [|c r IH]; intros tok; [reflexivity|].
  cbn [rstrip]. destruct (rstrip r) as [|c' r'] eqn:Hr.
  - destruct (is_space c) eqn:Hc; simpl; rewrite ?Hc.
    + destruct (decide (tok = "")); rewrite <- IH; reflexivity.
    + rewrite <- IH. reflexivity.
  - cbn [split_from]. destruct (is_space c).
    + destruct (decide (tok = "")); rewrite <- IH; reflexivity.
    + rewrite <- IH. reflexivity.
Qed.

Lemma split_from_sub_spaces (b : bool) (tok s : string) :
  (b = true -> tok = "") ->
  split_from tok (sub_spaces b s) = split_from tok s.
Proof.
  revert b tok. induction s as [|c r IH]; intros b tok Hb; [reflexivity|].
  cbn [sub_spaces split_from]. destruct (is_space c) eqn:Hc.
  - destruct b.
    + rewrite (Hb eq_refl). rewrite decide_True by reflexivity.
      apply IH. reflexivity.
    + cbn [split_from]. change (is_space " ") with true. cbn iota.
      destruct (decide (tok = "")); rewrite IH by reflexivity; reflexivity.
  - cbn [split_from]. rewrite Hc. apply IH. discriminate.
Qed.

Lemma append_nil_r (s : string) : s +:+ "" = s.
Proof. induction s as [|c r IH]; [reflexivity|]. rewrite append_cons, IH. reflexivity. Qed.

Lemma append_assoc (a b c : string) : (a +:+ b) +:+ c = a +:+ (b +:+ c).
Proof. induction a as [|x r IH]; [reflexivity|]. rewrite !append_cons, IH. reflexivity. Qed.

(** The words of the normalized prompt are the words of the lowered one. *)
Lemma split_normalize_prompt (p : string) :
  split (normalize_prompt p) = split (lower p).
Proof.
  unfold split, normalize_prompt, strip.
  rewrite split_from_sub_spaces by discriminate.
  rewrite lower_rstrip, split_from_rstrip, lower_lstrip, split_from_lstrip.
  reflexivity.
Qed.

Lemma split_from_nonempty (tok r : string) :
  rstrip r = r -> r ≠ "" -> split_from tok r ≠ [].
Proof.
  revert tok. induction r as [|c r IH]; intros tok Hfix Hne; [contradiction|].
  apply rstrip_fixed_tail in Hfix as [Hr Hc].
  cbn [split_from]. destruct (is_space c).
  - specialize (Hc eq_refl).
    destruct (decide (tok = "")); [apply IH; assumption | discriminate].
  - destruct r as [|c' r'].
    + cbn [split_from]. rewrite decide_False by apply append_snoc_nonempty. discriminate.
    + apply IH; [exact Hr | discriminate].
Qed.

Lemma sub_spaces_join (s : string) :
  ∀ (b : bool) (tok : string),
    (b = true -> tok = "") ->
    (b = false -> tok = "" -> starts_space s = false) ->
    rstrip s = s ->
    tok +:+ sub_spaces b s = join_blank (split_from tok s).
Proof.
  induction s as [|c r IH]; intros b tok Hb Hstart Hfix.
  - cbn [sub_spaces split_from]. rewrite append_nil_r.
    destruct (decide (tok = "")) as [->|]; reflexivity.
  - apply rstrip_fixed_tail in Hfix as [Hr Hc].
    cbn [sub_spaces split_from]. destruct (is_space c) eqn:Hsp.
    + specialize (Hc eq_refl). destruct b.
      * rewrite (Hb eq_refl). rewrite decide_True by reflexivity.
        apply IH; [reflexivity | discriminate | exact Hr].
      * destruct (decide (tok = "")) as [->|Htok].
        { specialize (Hstart eq_refl eq_refl). simpl in Hstart. congruence. }
        pose proof (IH true "" (fun _ => eq_refl) (fun H => False_ind _ (diff_true_false H)) Hr)
          as Hrest.
        pose proof (split_from_nonempty "" r Hr Hc) as Hne.
        destruct (split_from "" r) as [|w rest]; [contradiction|].
        change (join_blank (tok :: w :: rest)) with (tok +:+ " " +:+ join_blank (w :: rest)).
        rewrite <- Hrest. reflexivity.
    + rewrite <- append_snoc. apply IH.
      * discriminate.
      * intros _ Habs. destruct (append_snoc_nonempty tok c Habs).
      * exact Hr.
Qed.

(** The normalized prompt is its lowered words joined by single blanks. *)
Lemma normalize_prompt_words (p : string) :
  normalize_prompt p = join_blank (split (lower p)).
Proof.
  unfold normalize_prompt, strip, split.
  rewrite lower_rstrip, lower_lstrip.
  change (sub_spaces false (rstrip (lstrip (lower p))))
    with ("" +:+ sub_spaces false (rstrip (lstrip (lower p)))).
  rewrite sub_spaces_join.
  - rewrite split_from_rstrip, split_from_lstrip. reflexivity.
  - discriminate.
  - intros _ _. apply starts_space_rstrip, starts_space_lstrip.
  - apply rstrip_idem.
Qed.

Lemma lower_normalize_prompt (p : string) : lower (normalize_prompt p) = normalize_prompt p.
Proof. unfold normalize_prompt. rewrite lower_sub_spaces, lower_idem. reflexivity. Qed.

Lemma split_from_all_space (tok b : string) :
  all_space b = true -> split_from tok b = split_from tok "".
Proof.
  revert tok. induction b as [|c r IH]; intros tok Hb; [reflexivity|].
  simpl in Hb. apply andb_true_iff in Hb as [Hc Hr].
  cbn [split_from]. rewrite Hc.
  destruct (decide (tok = "")) as [->|Htok].
  - rewrite IH by exact Hr. reflexivity.
  - rewrite IH by exact Hr. cbn [split_from]. rewrite decide_True by reflexivity.
    reflexivity.
Qed.

Lemma split_from_app_space_l (a p : string) :
  all_space a = true -> split_from "" (a +:+ p) = split_from "" p.
Proof.
  induction a as [|c r IH]; intros Ha; [reflexivity|].
  simpl in Ha. apply andb_true_iff in Ha as [Hc Hr].
  rewrite append_cons. cbn [split_from]. rewrite Hc.
  rewrite decide_True by reflexivity. apply IH, Hr.
Qed.

Lemma split_from_app_space_r (tok p b : string) :
  all_space b = true -> split_from tok (p +:+ b) = split_from tok p.
Proof.
  revert tok. induction p as [|c r IH]; intros tok Hb.
  - apply split_from_all_space, Hb.
  - rewrite append_cons. cbn [split_from].
    destruct (is_space c); [destruct (decide (tok = ""))|]; rewrite IH by exact Hb;
      reflexivity.
Qed.

Lemma split_from_app_sep (tok x w y : string) :
  all_space w = true -> w ≠ "" ->
  split_from tok (x +:+ w +:+ y) = split_from tok x ++ split y.
Proof.
  intros Hw Hne. revert tok. induction x as [|c r IH]; intros tok.
  - destruct w as [|cw w']; [contradiction|].
    simpl in Hw. apply andb_true_iff in Hw as [Hc Hw'].
    change ("" +:+ String cw w' +:+ y) with (String cw (w' +:+ y)).
    cbn [split_from]. rewrite Hc, (split_from_app_space_l w' y Hw').
    destruct (decide (tok = "")); reflexivity.
  - rewrite append_cons. cbn [split_from].
    destruct (is_space c); [destruct (decide (tok = ""))|]; rewrite IH; reflexivity.
Qed.

(** X1. Two prompts have the same normalized form exactly when their
    lowered texts split into the same sequence of words. *)
Theorem normalize_prompt_same_words (p1 p2 : string) :
  normalize_prompt p1 = normalize_prompt p2 ↔ split (lower p1) = split (lower p2).
Proof.
  split; intros Heq.
  - rewrite <- !split_normalize_prompt, Heq. reflexivity.
  - rewrite !normalize_prompt_words, Heq. reflexivity.
Qed.

(** X2. Normalizing twice is normalizing once. *)
Theorem normalize_prompt_idempotent (p : string) :
  normalize_prompt (normalize_prompt p) = normalize_prompt p.
Proof.
  apply normalize_prompt_same_words.
  rewrite lower_normalize_prompt. apply split_normalize_prompt.
Qed.

(** X3. The normalized form ignores white space around the prompt, the
    length and kind of a white-space run inside it, and letter case. *)
Theorem normalize_prompt_ignores_layout (a b w1 w2 x y p : string) :
  all_space a = true -> all_space b = true ->
  all_space w1 = true -> w1 ≠ "" ->
  all_space w2 = true -> w2 ≠ "" ->
  normalize_prompt (a +:+ p +:+ b) = normalize_prompt p
  ∧ normalize_prompt (x +:+ w1 +:+ y) = normalize_prompt (x +:+ w2 +:+ y)
  ∧ normalize_prompt (lower p) = normalize_prompt p.
Proof.
  intros Ha Hb Hw1 Hn1 Hw2 Hn2. split; [|split]; apply normalize_prompt_same_words.
  - unfold split. rewrite !lower_app.
    rewrite split_from_app_space_l by (rewrite all_space_lower; exact Ha).
    apply split_from_app_space_r. rewrite all_space_lower. exact Hb.
  - unfold split. rewrite !lower_app.
    rewrite !split_from_app_sep; try (rewrite all_space_lower; assumption).
    + reflexivity.
    + destruct w2; [contradiction | discriminate].
    + destruct w1; [contradiction | discriminate].
  - rewrite lower_idem. reflexivity.
Qed.

Lemma normalize_prompt_ignores_layout_witness :
  normalize_prompt ("  " +:+ "A Red Dragon" +:+ " ") = normalize_prompt "A Red Dragon"
  ∧ normalize_prompt ("a red" +:+ "   " +:+ "dragon") = normalize_prompt ("a red" +:+ " " +:+ "dragon")
  ∧ normalize_prompt (lower "A Red Dragon") = normalize_prompt "A Red Dragon".
Proof.
  apply (normalize_prompt_ignores_layout "  " " " "   " " " "a red" "dragon" "A Red Dragon");
    (reflexivity || discriminate).
Defined.

(** X4. The similarity scan sees the query only through the set of its
    lowered words: queries with the same set of lowered words, whatever the
    order, the repetitions, the case and the spacing, get the same answer. *)
Theorem find_similar_prompt_same_words (conn : db) (p1 p2 : string) (threshold : Qc) :
  (list_to_set (split (lower p1)) : gset string) = list_to_set (split (lower p2)) ->
  find_similar_prompt conn p1 threshold = find_similar_prompt conn p2 threshold.
Proof.
  intros Hw.
  assert (Ht : tokens_of p1 = tokens_of p2).
  { unfold tokens_of. rewrite !split_normalize_prompt. exact Hw. }
  unfold find_similar_prompt. rewrite Ht. reflexivity.
Qed.

Lemma find_similar_prompt_same_words_witness :
  find_similar_prompt (red_dragon_db None) "Dragon  RED a dragon" (Q2Qc 0.92)
  = find_similar_prompt (red_dragon_db None) "a red dragon" (Q2Qc 0.92).
Proof.
  apply (find_similar_prompt_same_words (red_dragon_db None)
           "Dragon  RED a dragon" "a red dragon" (Q2Qc 0.92)).
  apply (bool_decide_unpack _). vm_compute. exact I.
Defined.

(** ** The similarity scan, whatever the threshold *)

Lemma jaccard_disjoint (a b : gset string) : a ∩ b = ∅ -> jaccard a b = 0%Qc.
Proof.
  intros Hd. unfold jaccard, Qcdiv. rewrite Hd, size_empty.
  change (Z.of_nat 0) with 0%Z. rewrite Z2Qc_inj_0. apply Qcmult_0_l.
Qed.

Lemma find_similar_prompt_row (conn : db) (p : string) (threshold : Qc) (r : cache_row) :
  find_similar_prompt conn p threshold = Some r ->
  r ∈ prompt_cache conn
  ∧ tokens_of p ∩ tokens_of (c_prompt r) ≠ ∅
  ∧ (threshold ≤ score p r)%Qc.
Proof.
  unfold find_similar_prompt.
  destruct (decide (tokens_of p = ∅)) as [He|He]; [discriminate|].
  rewrite scan_row_keep_best by apply Qcle_refl.
  pose proof (keep_best_invariant
                (fun r => jaccard (tokens_of p) (tokens_of (c_prompt r)))
                (prompt_cache conn)) as Hinv.
  simpl in Hinv.
  destruct (fold_left _ (prompt_cache conn) (None, 0%Qc)) as [best s].
  simpl in Hinv. destruct Hinv as (_ & _ & Hbest).
  destruct best as [b|]; [|discriminate].
  destruct (decide (threshold ≤ s)%Qc) as [Hle|]; [|discriminate].
  intros Hr. injection Hr as <-.
  destruct Hbest as (Hpos & Hfb & i & Hi & _).
  split; [eapply list_elem_of_lookup_2; exact Hi|]. split.
  - intros Hd. rewrite (jaccard_disjoint _ _ Hd) in Hfb. rewrite <- Hfb in Hpos.
    exact (Qclt_not_eq _ _ Hpos eq_refl).
  - unfold score. rewrite <- (jaccard_ratio_eq _ _ He), Hfb. exact Hle.
Qed.

(** X5. Whatever the threshold, also zero or negative, a row that the
    similarity scan returns is a row of the cache that shares a word with
    the query and whose score reaches the threshold. *)
Theorem find_similar_prompt_sound (conn : db) (p : string) (threshold : Qc) (r : cache_row) :
  find_similar_prompt conn p threshold = Some r ->
  r ∈ prompt_cache conn
  ∧ tokens_of p ∩ tokens_of (c_prompt r) ≠ ∅
  ∧ (threshold ≤ score p r)%Qc.
Proof. apply find_similar_prompt_row. Qed.

Lemma find_similar_prompt_sound_witness :
  Cache "d0" "a red dragon" "/app/static/models/d0_cube.obj" "mock" None
    ∈ prompt_cache (red_dragon_db None)
  ∧ (0 ≤ score "red wine" (Cache "d0" "a red dragon" "/app/static/models/d0_cube.obj" "mock" None))%Qc.
Proof.
  destruct (find_similar_prompt_sound (red_dragon_db None) "red wine" 0%Qc
              (Cache "d0" "a red dragon" "/app/static/models/d0_cube.obj" "mock" None))
    as (Hin & _ & Hle).
  - vm_compute. reflexivity.
  - split; [exact Hin | exact Hle].
Defined.

(** ** The ledger *)

Lemma next_id_above (ids : list Z) (x : Z) : x ∈ ids -> x < next_id ids.
Proof.
  unfold next_id. induction ids as [|y ids IH]; intros Hin.
  - apply elem_of_nil in Hin. contradiction.
  - apply elem_of_cons in Hin as [-> | Hin]; simpl; [lia|].
    specialize (IH Hin). lia.
Qed.

Lemma next_id_positive (ids : list Z) : 0 < next_id ids.
Proof. unfold next_id. induction ids as [|y ids IH]; simpl; lia. Qed.

Lemma get_provider_generate (key : string) :
  provider_generate (get_provider key) = mock_generate.
Proof.
  unfold get_provider, PROVIDERS. cbn [List.find fst snd].
  destruct (bool_decide ("mock" = key)); [reflexivity|].
  destruct (bool_decide ("meshy" = key)); [reflexivity|].
  destruct (bool_decide ("kaedim" = key)); [reflexivity|].
  destruct (bool_decide ("tripoSR" = key)); reflexivity.
Qed.

Lemma get_provider_slug (key : string) :
  slug (get_provider key)
  = if bool_decide (key ∈ ["mock"; "meshy"; "kaedim"; "tripoSR"]) then key else "meshy".
Proof.
  destruct (decide (key = "mock")) as [->|H1]; [vm_compute; reflexivity|].
  destruct (decide (key = "meshy")) as [->|H2]; [vm_compute; reflexivity|].
  destruct (decide (key = "kaedim")) as [->|H3]; [vm_compute; reflexivity|].
  destruct (decide (key = "tripoSR")) as [->|H4]; [vm_compute; reflexivity|].
  unfold get_provider, PROVIDERS. cbn [List.find fst snd].
  rewrite (bool_decide_eq_false_2 ("mock" = key)) by congruence.
  rewrite (bool_decide_eq_false_2 ("meshy" = key)) by congruence.
  rewrite (bool_decide_eq_false_2 ("kaedim" = key)) by congruence.
  rewrite (bool_decide_eq_false_2 ("tripoSR" = key)) by congruence.
  rewrite bool_decide_eq_false_2; [reflexivity|].
  rewrite !elem_of_cons, elem_of_nil. intros [Hk | [Hk | [Hk | [Hk | []]]]]; congruence.
Qed.

(** What every call of [generate] does to the store. *)
Lemma generate_record_shape (e : env) (conn : db) (request : form) :
  let o := generate e conn request in
  ∃ g, generations (out_db o) = generations conn ++ [g]
       ∧ g_id g = next_id (List.map g_id (generations conn))
       ∧ out_response o = Redirect_detail (g_id g)
       ∧ feedbacks (out_db o) = feedbacks conn
       ∧ g_prompt g = req_prompt request
       ∧ g_mode g = req_mode request
       ∧ g_image_path g = req_image e request
       ∧ g_status g = "ok"
       ∧ g_reuse_of g = None
       ∧ ((g_cache_hit g = 0 ∧ ∃ call, out_calls o = [call])
          ∨ ((g_cache_hit g = 1 ∨ g_cache_hit g = 2)
             ∧ g_duration_ms g = 0
             ∧ out_calls o = []
             ∧ prompt_cache (out_db o) = prompt_cache conn)).
Proof.
  intros o. subst o.
  destruct (generate_cases e conn request) as [[r Hc] | [[sim Hc] | Hc]]; rewrite Hc.
  - eexists. unfold exact_outcome. cbn [out_db out_response out_calls generations feedbacks
                                         prompt_cache].
    repeat (split; [reflexivity|]). right. repeat split; try reflexivity. left. reflexivity.
  - eexists. unfold similar_outcome. cbn [out_db out_response out_calls generations feedbacks
                                           prompt_cache].
    repeat (split; [reflexivity|]). right. repeat split; try reflexivity. right. reflexivity.
  - eexists. unfold fresh_outcome, upsert_cache.
    cbn [out_db out_response out_calls generations feedbacks prompt_cache].
    repeat (split; [reflexivity|]). left. split; [reflexivity|]. eexists. reflexivity.
Qed.

(** X6. Every call of [generate] appends exactly one record to the ledger
    and leaves the older records and the feedback table as they were. The
    new record has an id above every older one and is the target of the
    redirect; it carries the request's prompt, mode and stored image path,
    the status [ok] and no [reuse_of]. Either it is fresh ([cache_hit = 0])
    with exactly one provider call, or it is a reuse ([cache_hit] 1 or 2)
    with duration [0], no provider call and an untouched cache. *)
Theorem generate_appends_one_record (e : env) (conn : db) (request : form) :
  let o := generate e conn request in
  ∃ g, generations (out_db o) = generations conn ++ [g]
       ∧ (∀ g', g' ∈ generations conn -> g_id g' < g_id g)
       ∧ out_response o = Redirect_detail (g_id g)
       ∧ feedbacks (out_db o) = feedbacks conn
       ∧ g_prompt g = req_prompt request
       ∧ g_mode g = req_mode request
       ∧ g_image_path g = req_image e request
       ∧ g_status g = "ok"
       ∧ g_reuse_of g = None
       ∧ ((g_cache_hit g = 0 ∧ ∃ call, out_calls o = [call])
          ∨ ((g_cache_hit g = 1 ∨ g_cache_hit g = 2)
             ∧ g_duration_ms g = 0
             ∧ out_calls o = []
             ∧ prompt_cache (out_db o) = prompt_cache conn)).
Proof.
  intros o. destruct (generate_record_shape e conn request)
    as (g & Hg & Hid & Hresp & Hfb & Hrest).
  exists g. split; [exact Hg|]. split.
  - intros g' Hin. rewrite Hid. apply next_id_above.
    apply list_elem_of_fmap. exists g'. split; [reflexivity | exact Hin].
  - split; [exact Hresp|]. split; [exact Hfb | exact Hrest].
Qed.

Lemma written_fresh_record (e : env) (conn : db) (request : form) :
  written (fresh_outcome e conn request)
  = Some (Generation (next_id (List.map g_id (generations conn)))
            (req_prompt request) (req_mode request) (req_image e request)
            (slug (get_provider (default "meshy" (form_provider request))))
            (mock_generate e (req_prompt request) (req_image e request)).1
            "ok" (elapsed_ms e) 0 None).
Proof.
  unfold written, fresh_outcome, upsert_cache. cbn [out_db generations].
  rewrite last_snoc, get_provider_generate. reflexivity.
Qed.

Lemma select_cache_fresh (e : env) (conn : db) (request : form) :
  select_cache (out_db (fresh_outcome e conn request)) (req_fingerprint e request)
  = Some (Cache (req_fingerprint e request) (req_prompt request)
            (mock_generate e (req_prompt request) (req_image e request)).1
            (slug (get_provider (default "meshy" (form_provider request))))
            (match select_cache conn (req_fingerprint e request) with
             | Some old => c_quality_score old
             | None => None
             end)).
Proof.
  unfold fresh_outcome. cbn [out_db]. rewrite select_cache_upsert, get_provider_generate.
  reflexivity.
Qed.

(** The ways a call ends, with the tests that lead there. *)
Lemma generate_cases_detailed (e : env) (conn : db) (request : form) :
  (∃ r, select_cache conn (req_fingerprint e request) = Some r
        ∧ (req_policy request = "always" ∨ req_policy request = "smart")
        ∧ generate e conn request = exact_outcome e conn request r)
  ∨ (∃ sim, select_cache conn (req_fingerprint e request) = None
            ∧ req_policy request = "smart"
            ∧ find_similar_prompt conn (req_prompt request) (Q2Qc 0.92) = Some sim
            ∧ (Q2Qc 3.5 ≤ or_default (c_quality_score sim) (Q2Qc 4.0))%Qc
            ∧ generate e conn request = similar_outcome e conn request sim)
  ∨ (generate e conn request = fresh_outcome e conn request
     ∧ (req_policy request = "always" ∨ req_policy request = "smart" ->
        select_cache conn (req_fingerprint e request) = None)).
Proof.
  rewrite generate_unfold.
  destruct (select_cache conn (req_fingerprint e request)) as [r|] eqn:Hrow.
  - destruct (bool_decide (req_policy request = "always")) eqn:Ha.
    + left. exists r. apply bool_decide_eq_true in Ha. auto.
    + destruct (bool_decide (req_policy request = "smart")) eqn:Hs.
      * left. exists r. apply bool_decide_eq_true in Hs. auto.
      * right. right. split; [reflexivity|].
        apply bool_decide_eq_false in Ha. apply bool_decide_eq_false in Hs.
        intros [H | H]; contradiction.
  - destruct (bool_decide (req_policy request = "smart")) eqn:Hs.
    + apply bool_decide_eq_true in Hs.
      destruct (find_similar_prompt conn (req_prompt request) (Q2Qc 0.92)) as [sim|] eqn:Hsim.
      * destruct (decide (Q2Qc 3.5 ≤ or_default (c_quality_score sim) (Q2Qc 4.0))%Qc).
        -- right. left. exists sim. auto.
        -- right. right. auto.
      * right. right. auto.
    + right. right. auto.
Qed.

(** X7. A request whose policy is neither [always] nor [smart] is generated
    afresh whatever the cache holds: the record has [cache_hit = 0] and the
    duration of the provider call, exactly one provider is called, and the
    cache row of the fingerprint is written with the new asset. *)
Theorem never_policy_bypass (e : env) (conn : db) (request : form) :
  req_policy request ≠ "always" ->
  req_policy request ≠ "smart" ->
  let o := generate e conn request in
  ∃ g, generations (out_db o) = generations conn ++ [g]
       ∧ g_cache_hit g = 0
       ∧ g_duration_ms g = elapsed_ms e
       ∧ out_calls o = [(g_provider g, req_prompt request, req_image e request)]
       ∧ ∃ q, select_cache (out_db o) (req_fingerprint e request)
              = Some (Cache (req_fingerprint e request) (req_prompt request)
                        (g_model_path g) (g_provider g) q).
Proof.
  intros Ha Hs o. subst o. rewrite (generate_bypass e conn request Ha Hs).
  eexists. split; [|split; [|split; [|split]]].
  - unfold fresh_outcome, upsert_cache. cbn [out_db generations]. reflexivity.
  - reflexivity.
  - cbn [g_duration_ms]. rewrite get_provider_generate. reflexivity.
  - reflexivity.
  - eexists. rewrite select_cache_fresh. cbn [g_model_path g_provider].
    rewrite get_provider_generate. reflexivity.
Qed.

Lemma never_policy_bypass_witness :
  let o := generate demo_env dragon_db (dragon_request "never") in
  ∃ g, generations (out_db o) = generations dragon_db ++ [g]
       ∧ g_cache_hit g = 0
       ∧ g_duration_ms g = 12.
Proof.
  destruct (never_policy_bypass demo_env dragon_db (dragon_request "never"))
    as (g & Hg & Hhit & Hdur & _).
  - discriminate.
  - discriminate.
  - exists g. split; [exact Hg|]. split; [exact Hhit | exact Hdur].
Defined.

(** X8. The redirect of [generate] always leads to a page: [detail] on the
    new store finds the record just written under the id of the redirect,
    with the feedback records that already carry that id. *)
Theorem generate_redirect_resolves (e : env) (conn : db) (request : form) :
  let o := generate e conn request in
  ∃ g, written o = Some g
       ∧ out_response o = Redirect_detail (g_id g)
       ∧ detail (out_db o) (g_id g)
         = Detail_page g
             (rev (List.filter (fun f => bool_decide (f_generation_id f = g_id g))
                     (feedbacks conn))).
Proof.
  intros o. destruct (generate_record_shape e conn request)
    as (g & Hg & Hid & Hresp & Hfb & _).
  fold o in Hg, Hresp, Hfb.
  exists g. split; [unfold written; rewrite Hg; apply last_snoc|].
  split; [exact Hresp|].
  rewrite <- Hfb. apply detail_existing.
  unfold select_generation. rewrite Hg, find_append.
  assert (Hold : List.find (fun g0 => bool_decide (g_id g0 = g_id g)) (generations conn)
                 = None).
  { destruct (List.find _ (generations conn)) as [g0|] eqn:Hf; [|reflexivity].
    apply find_some in Hf as [Hin Heq]. apply bool_decide_eq_true in Heq.
    assert (g_id g0 < g_id g); [|lia].
    rewrite Hid. apply next_id_above. apply list_elem_of_fmap.
    exists g0. split; [reflexivity | apply list_elem_of_In, Hin]. }
  rewrite Hold. cbn [List.find]. rewrite bool_decide_eq_true_2 by reflexivity.
  reflexivity.
Qed.

(** X9. A fresh record is labelled with the provider that was called: the
    requested key when it is one of [mock], [meshy], [kaedim], [tripoSR],
    and [meshy] for any other key and for a missing one. *)
Theorem provider_fallback (e : env) (conn : db) (request : form) (g : generation_row) :
  written (generate e conn request) = Some g ->
  g_cache_hit g = 0 ->
  let key := default "meshy" (form_provider request) in
  g_provider g
  = (if bool_decide (key ∈ ["mock"; "meshy"; "kaedim"; "tripoSR"]) then key else "meshy")
  ∧ out_calls (generate e conn request)
    = [(g_provider g, req_prompt request, req_image e request)].
Proof.
  intros Hw Hhit key.
  destruct (generate_cases e conn request) as [[r Hc] | [[sim Hc] | Hc]];
    rewrite Hc in Hw |- *.
  - rewrite written_exact in Hw. injection Hw as <-. discriminate Hhit.
  - rewrite written_similar in Hw. injection Hw as <-. discriminate Hhit.
  - rewrite written_fresh_record in Hw. injection Hw as <-.
    cbn [g_provider]. split; [apply get_provider_slug | reflexivity].
Qed.

Lemma provider_fallback_witness :
  let request := Form (Some "text") (Some "dragon") (Some "openai") (Some "never") None in
  ∃ g, written (generate demo_env empty_db request) = Some g ∧ g_provider g = "meshy".
Proof.
  eexists. split; [vm_compute; reflexivity|].
  refine (proj1 (provider_fallback demo_env empty_db
                   (Form (Some "text") (Some "dragon") (Some "openai") (Some "never") None)
                   _ _ _)).
  - vm_compute. reflexivity.
  - reflexivity.
Defined.

(** ** Reuse across calls *)

(** X10. A request submitted twice under [always] or [smart], with the same
    stored image path both times, is answered the second time by a reuse of
    the asset of the first answer: [cache_hit] is 1 or 2, the model path is
    that of the first record, the duration is [0] and no provider is
    called. *)
Theorem resubmit_reuses (e1 e2 : env) (conn : db) (request : form) :
  req_policy request = "always" ∨ req_policy request = "smart" ->
  req_image e2 request = req_image e1 request ->
  let o1 := generate e1 conn request in
  let o2 := generate e2 (out_db o1) request in
  ∃ g1 g2,
    written o1 = Some g1
    ∧ written o2 = Some g2
    ∧ (g_cache_hit g2 = 1 ∨ g_cache_hit g2 = 2)
    ∧ g_model_path g2 = g_model_path g1
    ∧ g_duration_ms g2 = 0
    ∧ out_calls o2 = [].
Proof.
  intros Hpol Himg o1 o2. subst o1 o2.
  assert (Hfp : req_fingerprint e2 request = req_fingerprint e1 request).
  { unfold req_fingerprint. rewrite Himg. reflexivity. }
  destruct (generate_cases_detailed e1 conn request)
    as [(r & Hrow & _ & Hc) | [(sim & Hrow & Hs & Hsim & Hq & Hc) | (Hc & _)]]; rewrite Hc.
  - assert (Hrow2 : select_cache (out_db (exact_outcome e1 conn request r))
                      (req_fingerprint e2 request) = Some r)
      by (rewrite Hfp; exact Hrow).
    rewrite (generate_exact e2 _ request r Hrow2 Hpol), !written_exact.
    eexists. eexists. split; [reflexivity|]. split; [reflexivity|].
    split; [left; reflexivity|]. repeat split; reflexivity.
  - assert (Hrow2 : select_cache (out_db (similar_outcome e1 conn request sim))
                      (req_fingerprint e2 request) = None)
      by (rewrite Hfp; exact Hrow).
    assert (Hsim2 : find_similar_prompt (out_db (similar_outcome e1 conn request sim))
                      (req_prompt request) (Q2Qc 0.92) = Some sim) by exact Hsim.
    rewrite (generate_similar e2 _ request sim Hrow2 Hs Hsim2 Hq), !written_similar.
    eexists. eexists. split; [reflexivity|]. split; [reflexivity|].
    split; [right; reflexivity|]. repeat split; reflexivity.
  - pose proof (select_cache_fresh e1 conn request) as Hrow2. rewrite <- Hfp in Hrow2 at 1.
    rewrite (generate_exact e2 _ request _ Hrow2 Hpol), written_exact, written_fresh_record.
    eexists. eexists. split; [reflexivity|]. split; [reflexivity|].
    split; [left; reflexivity|]. repeat split; reflexivity.
Qed.

Lemma resubmit_reuses_witness :
  let o1 := generate demo_env (red_dragon_db None) dragon_red_request in
  let o2 := generate demo_env (out_db o1) dragon_red_request in
  ∃ g1 g2,
    written o1 = Some g1 ∧ written o2 = Some g2
    ∧ (g_cache_hit g2 = 1 ∨ g_cache_hit g2 = 2)
    ∧ g_model_path g2 = g_model_path g1.
Proof.
  destruct (resubmit_reuses demo_env demo_env (red_dragon_db None) dragon_red_request)
    as (g1 & g2 & H1 & H2 & Hhit & Hpath & _).
  - right. reflexivity.
  - reflexivity.
  - exists g1, g2. repeat split; assumption.
Defined.

Lemma req_fingerprint_text (e : env) (request : form) :
  req_mode request = "text" ->
  req_fingerprint e request = prompt_hash (req_prompt request).
Proof.
  intros Hm. unfold req_fingerprint, fingerprint. rewrite Hm.
  rewrite decide_True by reflexivity. reflexivity.
Qed.

(** X11. In text mode a request is an exact reuse of the answer to an
    earlier request with the same lowered words: after a text request under
    a policy other than [smart], a text request under [always] or [smart]
    whose prompt differs from the first in case and white space only gets
    [cache_hit = 1], the model path of the first record and duration [0]. *)
Theorem text_variant_exact_reuse (e1 e2 : env) (conn : db) (request1 request2 : form) :
  req_mode request1 = "text" ->
  req_mode request2 = "text" ->
  split (lower (req_prompt request1)) = split (lower (req_prompt request2)) ->
  req_policy request1 ≠ "smart" ->
  req_policy request2 = "always" ∨ req_policy request2 = "smart" ->
  let o1 := generate e1 conn request1 in
  let o2 := generate e2 (out_db o1) request2 in
  ∃ g1 g2,
    written o1 = Some g1
    ∧ written o2 = Some g2
    ∧ g_cache_hit g2 = 1
    ∧ g_model_path g2 = g_model_path g1
    ∧ g_duration_ms g2 = 0
    ∧ out_calls o2 = [].
Proof.
  intros Hm1 Hm2 Hwords Hp1 Hp2 o1 o2. subst o1 o2.
  assert (Hfp : req_fingerprint e2 request2 = req_fingerprint e1 request1).
  { rewrite !req_fingerprint_text by assumption.
    apply prompt_hash_normalized, normalize_prompt_same_words. symmetry. exact Hwords. }
  destruct (generate_cases_detailed e1 conn request1)
    as [(r & Hrow & _ & Hc) | [(sim & _ & Hs & _) | (Hc & _)]];
    [| contradiction |]; rewrite Hc.
  - assert (Hrow2 : select_cache (out_db (exact_outcome e1 conn request1 r))
                      (req_fingerprint e2 request2) = Some r)
      by (rewrite Hfp; exact Hrow).
    rewrite (generate_exact e2 _ request2 r Hrow2 Hp2), !written_exact.
    eexists. eexists. repeat split; reflexivity.
  - pose proof (select_cache_fresh e1 conn request1) as Hrow2. rewrite <- Hfp in Hrow2 at 1.
    rewrite (generate_exact e2 _ request2 _ Hrow2 Hp2), written_exact, written_fresh_record.
    eexists. eexists. repeat split; reflexivity.
Qed.

Lemma text_variant_exact_reuse_witness :
  let request1 := Form (Some "text") (Some "a red dragon") (Some "mock") (Some "always") None in
  let request2 := Form (Some "text") (Some "A red   Dragon ") (Some "mock") (Some "smart") None in
  let o1 := generate demo_env empty_db request1 in
  let o2 := generate demo_env (out_db o1) request2 in
  ∃ g1 g2,
    written o1 = Some g1 ∧ written o2 = Some g2
    ∧ g_cache_hit g2 = 1 ∧ g_model_path g2 = g_model_path g1.
Proof.
  destruct (text_variant_exact_reuse demo_env demo_env empty_db
              (Form (Some "text") (Some "a red dragon") (Some "mock") (Some "always") None)
              (Form (Some "text") (Some "A red   Dragon ") (Some "mock") (Some "smart") None))
    as (g1 & g2 & H1 & H2 & Hhit & Hpath & _).
  - reflexivity.
  - reflexivity.
  - reflexivity.
  - discriminate.
  - right. reflexivity.
  - exists g1, g2. repeat split; assumption.
Defined.

(** X12. The asset of a fresh generation is named after the prompt text
    alone: two fresh records for the same prompt under the same model
    directory carry the same model path, whatever the mode, the uploaded
    image, the provider and the store. *)
Theorem fresh_asset_named_by_prompt (e1 e2 : env) (conn1 conn2 : db)
    (request1 request2 : form) (g1 g2 : generation_row) :
  req_prompt request1 = req_prompt request2 ->
  MODEL_DIR e1 = MODEL_DIR e2 ->
  written (generate e1 conn1 request1) = Some g1 ->
  written (generate e2 conn2 request2) = Some g2 ->
  g_cache_hit g1 = 0 ->
  g_cache_hit g2 = 0 ->
  g_model_path g1 = g_model_path g2.
Proof.
  intros Hp Hd Hw1 Hw2 Hh1 Hh2.
  assert (Hfresh : ∀ e conn request g,
            written (generate e conn request) = Some g -> g_cache_hit g = 0 ->
            g_model_path g = (mock_generate e (req_prompt request) (req_image e request)).1).
  { intros e conn request g Hw Hh.
    destruct (generate_cases e conn request) as [[r Hc] | [[sim Hc] | Hc]]; rewrite Hc in Hw.
    - rewrite written_exact in Hw. injection Hw as <-. discriminate Hh.
    - rewrite written_similar in Hw. injection Hw as <-. discriminate Hh.
    - rewrite written_fresh_record in Hw. injection Hw as <-. reflexivity. }
  rewrite (Hfresh _ _ _ _ Hw1 Hh1), (Hfresh _ _ _ _ Hw2 Hh2).
  unfold mock_generate. cbn [fst]. rewrite Hp, Hd. reflexivity.
Qed.

Lemma fresh_asset_named_by_prompt_witness :
  ∃ g1 g2,
    written (generate demo_env empty_db
               (Form (Some "text") (Some "dragon") (Some "mock") (Some "never") None))
    = Some g1
    ∧ written (generate demo_env dragon_db
                 (Form (Some "image") (Some "dragon") (Some "kaedim") (Some "never")
                    (Some "photo.jpg")))
      = Some g2
    ∧ g_model_path g1 = g_model_path g2.
Proof.
  eexists. eexists. split; [vm_compute; reflexivity|]. split; [vm_compute; reflexivity|].
  eapply (fresh_asset_named_by_prompt demo_env demo_env empty_db dragon_db
            (Form (Some "text") (Some "dragon") (Some "mock") (Some "never") None)
            (Form (Some "image") (Some "dragon") (Some "kaedim") (Some "never")
               (Some "photo.jpg"))).
  - reflexivity.
  - reflexivity.
  - vm_compute. reflexivity.
  - vm_compute. reflexivity.
  - reflexivity.
  - reflexivity.
Defined.

(** ** Feedback and the store *)

Lemma select_generation_appended (c : db) (gens : list generation_row) (g : generation_row) :
  generations c = gens ++ [g] ->
  (∀ g0, g0 ∈ gens -> g_id g0 < g_id g) ->
  select_generation c (g_id g) = Some g.
Proof.
  intros Hg Hlt. unfold select_generation. rewrite Hg, find_append.
  destruct (List.find _ gens) as [g0|] eqn:Hf.
  - apply find_some in Hf as [Hin Heq]. apply bool_decide_eq_true in Heq.
    specialize (Hlt g0 (proj2 (list_elem_of_In _ _) Hin)). lia.
  - cbn [List.find]. rewrite bool_decide_eq_true_2 by reflexivity. reflexivity.
Qed.

(** The store that [feedback] leaves, by the tests it makes. *)
Lemma feedback_store (conn : db) (gen_id rating : Z) (issues : list string)
    (comment : string) :
  let row := Feedback (next_id (List.map f_id (feedbacks conn))) gen_id rating issues
               (strip comment) in
  let conn1 := Db (generations conn) (feedbacks conn ++ [row]) (prompt_cache conn) in
  binds_generation_id conn gen_id = true ->
  sqlite_integer rating = true ->
  (feedback conn gen_id rating issues comment).1
  = match select_generation conn gen_id with
    | Some g =>
        let m := mean (ratings_sharing_prompt conn (g_prompt g) ++ [rating]) in
        if decide (m = 0%Qc) then conn1
        else update_quality conn1 m (fingerprint (g_prompt g) (g_mode g) (g_image_path g))
    | None => conn1
    end.
Proof.
  intros row conn1 Hbind Hrange. rewrite (feedback_bound _ _ _ _ _ Hbind Hrange).
  unfold feedback_stored. cbn [fst]. fold row. fold conn1.
  change (select_generation conn1 gen_id) with (select_generation conn gen_id).
  destruct (select_generation conn gen_id) as [g|] eqn:Hg; [|reflexivity].
  pose proof (select_generation_Some conn gen_id g Hg) as [Hin Hid].
  assert (Hpool : pooled_ratings conn1 (g_prompt g)
                  = ratings_sharing_prompt conn (g_prompt g) ++ [rating]).
  { rewrite <- pooled_ratings_stated. unfold pooled_ratings, conn1.
    cbn [generations feedbacks].
    rewrite List.filter_app, List.map_app. f_equal. cbn [List.filter].
    rewrite bool_decide_eq_true_2; [reflexivity|].
    apply list_elem_of_fmap. exists g. split; [symmetry; exact Hid|].
    apply list_elem_of_In, filter_In. split; [apply list_elem_of_In, Hin|].
    apply bool_decide_eq_true_2. reflexivity. }
  rewrite Hpool.
  destruct (ratings_sharing_prompt conn (g_prompt g)); reflexivity.
Qed.






(** X15. Feedback sent for the id that the next generation will get, with
    that id and the rating integers that SQLite binds, is kept and then
    belongs to that generation: after the next call of [generate] the detail
    page of the id shows the new record with that feedback, and its rating
    is pooled with the ratings of the new record's prompt. *)
Theorem orphan_feedback_adopted (e : env) (conn : db) (request : form) (rating : Z)
    (issues : list string) (comment : string) :
  let gen_id := next_id (List.map g_id (generations conn)) in
  let row := Feedback (next_id (List.map f_id (feedbacks conn))) gen_id rating issues
               (strip comment) in
  let conn1 := (feedback conn gen_id rating issues comment).1 in
  let o := generate e conn1 request in
  sqlite_integer gen_id = true ->
  sqlite_integer rating = true ->
  select_generation conn gen_id = None
  ∧ ∃ g fbs,
      written o = Some g
      ∧ g_id g = gen_id
      ∧ detail (out_db o) gen_id = Detail_page g fbs
      ∧ row ∈ fbs
      ∧ rating ∈ ratings_sharing_prompt (out_db o) (req_prompt request).
Proof.
  intros gen_id row conn1 o Hbind Hrange.
  assert (Hnone : select_generation conn gen_id = None).
  { destruct (select_generation conn gen_id) as [g0|] eqn:Hf; [|reflexivity].
    apply select_generation_Some in Hf as [Hin Hid].
    assert (g_id g0 < gen_id); [|lia].
    apply next_id_above, list_elem_of_fmap. exists g0. split; [reflexivity | exact Hin]. }
  split; [exact Hnone|].
  assert (Hgens : generations conn1 = generations conn) by apply feedback_generations.
  assert (Hfbs : feedbacks conn1 = feedbacks conn ++ [row]).
  { apply feedback_feedbacks; [|exact Hrange]. rewrite (binds_unknown _ _ Hnone). exact Hbind. }
  destruct (generate_record_shape e conn1 request)
    as (g & Hg & Hid & _ & Hfb & Hprompt & _).
  fold o in Hg, Hfb. rewrite Hgens in Hid. fold gen_id in Hid.
  assert (Hsel : select_generation (out_db o) gen_id = Some g).
  { rewrite <- Hid. apply (select_generation_appended _ _ _ Hg).
    intros g0 Hin. rewrite Hid. rewrite Hgens in Hin.
    apply next_id_above, list_elem_of_fmap. exists g0. split; [reflexivity | exact Hin]. }
  exists g. eexists. split; [unfold written; rewrite Hg; apply last_snoc|].
  split; [exact Hid|]. split; [apply (detail_existing _ _ _ Hsel)|]. split.
  - rewrite Hfb, Hfbs. apply list_elem_of_In, in_rev. rewrite rev_involutive.
    apply filter_In. split.
    + apply in_or_app. right. left. reflexivity.
    + apply bool_decide_eq_true_2. reflexivity.
  - unfold ratings_sharing_prompt. rewrite Hfb, Hfbs, Hg.
    apply list_elem_of_fmap. exists row. split; [reflexivity|].
    apply list_elem_of_In, filter_In. split.
    + apply in_or_app. right. left. reflexivity.
    + apply existsb_exists. exists g. split.
      * apply in_or_app. right. left. reflexivity.
      * cbn [f_generation_id row]. rewrite Hid, Hprompt.
        rewrite !bool_decide_eq_true_2 by reflexivity. reflexivity.
Qed.

Lemma orphan_feedback_adopted_witness :
  let conn1 := (feedback dragon_db 2 4 [] " late ").1 in
  let o := generate demo_env conn1 (dragon_request "always") in
  ∃ g fbs,
    written o = Some g
    ∧ g_id g = 2
    ∧ detail (out_db o) 2 = Detail_page g fbs
    ∧ Feedback 1 2 4 [] "late" ∈ fbs
    ∧ 4 ∈ ratings_sharing_prompt (out_db o) "dragon".
Proof.
  destruct (orphan_feedback_adopted demo_env dragon_db (dragon_request "always") 4 []
              " late ") as [_ Hadopted].
  - reflexivity.
  - reflexivity.
  - exact Hadopted.
Defined.




(** ** Reachable stores *)

Lemma foldr_max_init (b : Z) (l : list Z) :
  0 <= b -> foldr Z.max b l = Z.max b (foldr Z.max 0 l).
Proof. intros Hb. induction l as [|x l IH]; simpl; [lia | rewrite IH; lia]. Qed.

Lemma foldr_max_seq (n : nat) :
  foldr Z.max 0 (List.map Z.of_nat (seq 1 n)) = Z.of_nat n.
Proof.
  induction n as [|n IH]; [reflexivity|].
  rewrite seq_S, List.map_app, foldr_app. cbn [List.map foldr].
  rewrite foldr_max_init by lia. rewrite IH. lia.
Qed.

Lemma ids_snoc {A} (f : A -> Z) (l : list A) (x : A) :
  List.map f l = List.map Z.of_nat (seq 1 (length l)) ->
  f x = next_id (List.map f l) ->
  List.map f (l ++ [x]) = List.map Z.of_nat (seq 1 (length (l ++ [x]))).
Proof.
  intros Hl Hx. rewrite List.map_app, length_app. cbn [List.map length].
  rewrite Nat.add_1_r, seq_S, List.map_app. cbn [List.map].
  rewrite Hx, Hl. unfold next_id. rewrite foldr_max_seq. f_equal. f_equal. lia.
Qed.

Lemma select_cache_Some (conn : db) (h : string) (r : cache_row) :
  select_cache conn h = Some r -> r ∈ prompt_cache conn ∧ c_hash r = h.
Proof.
  unfold select_cache. intros Hf. apply find_some in Hf as [Hin Hh].
  apply bool_decide_eq_true in Hh. split; [apply list_elem_of_In, Hin | exact Hh].
Qed.

Lemma get_provider_slug_known (key : string) : slug (get_provider key) ∈ provider_slugs.
Proof.
  rewrite get_provider_slug. unfold provider_slugs. case_bool_decide as Hk; [exact Hk|].
  apply elem_of_cons. right. apply elem_of_cons. left. reflexivity.
Qed.

Lemma cache_similar_not_slug : "cache-similar" ∉ provider_slugs.
Proof.
  unfold provider_slugs. rewrite !elem_of_cons, elem_of_nil.
  intros [H | [H | [H | [H | []]]]]; discriminate H.
Qed.

Lemma NoDup_map_filter {A B} (f : A -> B) (P : A -> bool) (l : list A) :
  NoDup (List.map f l) -> NoDup (List.map f (List.filter P l)).
Proof.
  induction l as [|x l IH]; cbn [List.map List.filter]; intros Hnd; [constructor|].
  apply NoDup_cons in Hnd as [Hx Hnd]. destruct (P x); [|apply IH, Hnd].
  cbn [List.map]. apply NoDup_cons. split; [|apply IH, Hnd].
  intros Hin. apply Hx. apply list_elem_of_fmap in Hin as (y & Hy & Hin).
  apply list_elem_of_fmap. exists y. split; [exact Hy|].
  apply list_elem_of_In, filter_In in Hin as [Hin _]. apply list_elem_of_In, Hin.
Qed.

Lemma store_invariant_empty : store_invariant empty_db.
Proof.
  constructor; cbn.
  - reflexivity.
  - reflexivity.
  - constructor.
  - intros r Hr. apply elem_of_nil in Hr. contradiction.
  - intros r Hr. apply elem_of_nil in Hr. contradiction.
  - intros g Hg. apply elem_of_nil in Hg. contradiction.
  - intros g Hg. apply elem_of_nil in Hg. contradiction.
Qed.

Lemma origin_grows (gens : list generation_row) (g : generation_row) (r : cache_row) :
  (∃ g0, g0 ∈ gens ∧ g_cache_hit g0 = 0
         ∧ c_hash r = fingerprint (g_prompt g0) (g_mode g0) (g_image_path g0)
         ∧ c_prompt r = g_prompt g0 ∧ c_model_path r = g_model_path g0
         ∧ c_provider r = g_provider g0) ->
  ∃ g0, g0 ∈ gens ++ [g] ∧ g_cache_hit g0 = 0
        ∧ c_hash r = fingerprint (g_prompt g0) (g_mode g0) (g_image_path g0)
        ∧ c_prompt r = g_prompt g0 ∧ c_model_path r = g_model_path g0
        ∧ c_provider r = g_provider g0.
Proof.
  intros (g0 & Hin & Hrest). exists g0. split; [|exact Hrest].
  apply elem_of_app. left. exact Hin.
Qed.

Lemma reuse_grows (gens : list generation_row) (g : generation_row) :
  (∀ g1, g1 ∈ gens -> g_cache_hit g1 ≠ 0 ->
         ∃ g0, g0 ∈ gens ∧ g_cache_hit g0 = 0 ∧ g_model_path g0 = g_model_path g1
               ∧ g_id g0 < g_id g1) ->
  (g_cache_hit g ≠ 0 ->
   ∃ g0, g0 ∈ gens ∧ g_cache_hit g0 = 0 ∧ g_model_path g0 = g_model_path g
         ∧ g_id g0 < g_id g) ->
  ∀ g1, g1 ∈ gens ++ [g] -> g_cache_hit g1 ≠ 0 ->
        ∃ g0, g0 ∈ gens ++ [g] ∧ g_cache_hit g0 = 0 ∧ g_model_path g0 = g_model_path g1
              ∧ g_id g0 < g_id g1.
Proof.
  intros Hold Hnew g1 Hin Hhit.
  apply elem_of_app in Hin as [Hin | Hin].
  - destruct (Hold g1 Hin Hhit) as (g0 & Hg0 & Hrest).
    exists g0. split; [apply elem_of_app; left; exact Hg0 | exact Hrest].
  - apply list_elem_of_singleton in Hin. subst g1.
    destruct (Hnew Hhit) as (g0 & Hg0 & Hrest).
    exists g0. split; [apply elem_of_app; left; exact Hg0 | exact Hrest].
Qed.

(** A reuse record added to the ledger keeps the invariant. *)
Lemma reuse_keeps_invariant (conn : db) (g : generation_row) (r : cache_row) :
  store_invariant conn ->
  r ∈ prompt_cache conn ->
  g_id g = next_id (List.map g_id (generations conn)) ->
  g_status g = "ok" -> g_reuse_of g = None -> g_duration_ms g = 0 ->
  g_model_path g = c_model_path r ->
  (g_cache_hit g = 1 ∧ g_provider g = c_provider r)
  ∨ (g_cache_hit g = 2 ∧ g_provider g = "cache-similar") ->
  store_invariant (Db (generations conn ++ [g]) (feedbacks conn) (prompt_cache conn)).
Proof.
  intros [Hgi Hfi Hh Hs Ho Hl Hr] Hin Hid Hst Hre Hdur Hpath Hkind.
  destruct (Ho r Hin) as (g0 & Hg0 & Hhit0 & _ & _ & Hp0 & Hprov0).
  constructor; cbn [generations feedbacks prompt_cache].
  - apply ids_snoc; assumption.
  - exact Hfi.
  - exact Hh.
  - exact Hs.
  - intros r' Hr'. apply origin_grows, Ho, Hr'.
  - intros g1 Hg1. apply elem_of_app in Hg1 as [Hg1 | Hg1]; [apply Hl, Hg1|].
    apply list_elem_of_singleton in Hg1. subst g1.
    split; [exact Hst|]. split; [exact Hre|].
    destruct (Hl g0 Hg0) as (_ & _ & _ & _ & H2 & Hslug).
    assert (Hr0 : g_provider g0 ∈ provider_slugs) by (apply Hslug; lia).
    destruct Hkind as [[Hk Hp] | [Hk Hp]]; rewrite Hk, Hp.
    + split; [right; left; reflexivity|]. split; [intros _; exact Hdur|]. split.
      * split; [discriminate|]. intros Hcs. exfalso.
        apply cache_similar_not_slug. rewrite <- Hcs, Hprov0. exact Hr0.
      * intros _. rewrite Hprov0. exact Hr0.
    + split; [right; right; reflexivity|]. split; [intros _; exact Hdur|]. split.
      * split; reflexivity.
      * intros Hne. contradiction.
  - apply reuse_grows; [exact Hr|]. intros _.
    exists g0. split; [exact Hg0|]. split; [exact Hhit0|].
    split; [rewrite Hpath; symmetry; exact Hp0|].
    rewrite Hid. apply next_id_above, list_elem_of_fmap.
    exists g0. split; [reflexivity | exact Hg0].
Qed.

(** A fresh record with its cache write keeps the invariant. *)
Lemma fresh_keeps_invariant (conn : db) (g : generation_row) :
  store_invariant conn ->
  g_id g = next_id (List.map g_id (generations conn)) ->
  g_status g = "ok" -> g_reuse_of g = None -> g_cache_hit g = 0 ->
  g_provider g ∈ provider_slugs ->
  store_invariant
    (upsert_cache (Db (generations conn ++ [g]) (feedbacks conn) (prompt_cache conn))
       (fingerprint (g_prompt g) (g_mode g) (g_image_path g))
       (g_prompt g) (g_model_path g) (g_provider g)).
Proof.
  intros [Hgi Hfi Hh Hs Ho Hl Hr] Hid Hst Hre Hhit Hslug.
  set (h := fingerprint (g_prompt g) (g_mode g) (g_image_path g)).
  unfold upsert_cache.
  change (select_cache (Db (generations conn ++ [g]) (feedbacks conn) (prompt_cache conn)) h)
    with (select_cache conn h).
  constructor; cbn [generations feedbacks prompt_cache].
  - apply ids_snoc; assumption.
  - exact Hfi.
  - rewrite List.map_app. cbn [List.map c_hash]. apply NoDup_app. split; [|split].
    + apply NoDup_map_filter, Hh.
    + intros x Hx Hx'. apply list_elem_of_singleton in Hx'. subst x.
      apply list_elem_of_fmap in Hx as (r & Hrh & Hx).
      apply list_elem_of_In, filter_In in Hx as [_ Hx].
      apply negb_true_iff, bool_decide_eq_false in Hx. apply Hx. symmetry. exact Hrh.
    + apply NoDup_singleton.
  - intros r Hin. apply elem_of_app in Hin as [Hin | Hin].
    + apply list_elem_of_In, filter_In in Hin as [Hin _]. apply Hs, list_elem_of_In, Hin.
    + apply list_elem_of_singleton in Hin. subst r. cbn [c_quality_score].
      destruct (select_cache conn h) as [old|] eqn:Hold; [|discriminate].
      apply select_cache_Some in Hold as [Hold _]. apply Hs, Hold.
  - intros r Hin. apply elem_of_app in Hin as [Hin | Hin].
    + apply list_elem_of_In, filter_In in Hin as [Hin _].
      apply origin_grows, Ho, list_elem_of_In, Hin.
    + apply list_elem_of_singleton in Hin. subst r. exists g.
      split; [apply elem_of_app; right; apply list_elem_of_singleton; reflexivity|].
      split; [exact Hhit|]. repeat split; reflexivity.
  - intros g1 Hg1. apply elem_of_app in Hg1 as [Hg1 | Hg1]; [apply Hl, Hg1|].
    apply list_elem_of_singleton in Hg1. subst g1.
    split; [exact Hst|]. split; [exact Hre|]. rewrite Hhit.
    split; [left; reflexivity|]. split; [intros Hne; contradiction|]. split.
    + split; [discriminate|]. intros Hcs. exfalso.
      apply cache_similar_not_slug. rewrite <- Hcs. exact Hslug.
    + intros _. exact Hslug.
  - apply reuse_grows; [exact Hr|]. intros Hne. contradiction.
Qed.

Lemma generate_keeps_invariant (e : env) (conn : db) (request : form) :
  store_invariant conn -> store_invariant (out_db (generate e conn request)).
Proof.
  intros Hinv.
  destruct (generate_cases_detailed e conn request)
    as [(r & Hrow & _ & Hc) | [(sim & _ & _ & Hsim & _ & Hc) | (Hc & _)]]; rewrite Hc.
  - apply select_cache_Some in Hrow as [Hin _].
    unfold exact_outcome. cbn [out_db].
    apply (reuse_keeps_invariant conn _ r Hinv Hin); try reflexivity.
    left. split; reflexivity.
  - apply find_similar_prompt_row in Hsim as [Hin _].
    unfold similar_outcome. cbn [out_db].
    apply (reuse_keeps_invariant conn _ sim Hinv Hin); try reflexivity.
    right. split; reflexivity.
  - unfold fresh_outcome. cbn [out_db].
    apply (fresh_keeps_invariant conn
             (Generation (next_id (List.map g_id (generations conn)))
                (req_prompt request) (req_mode request) (req_image e request)
                (slug (get_provider (default "meshy" (form_provider request))))
                (provider_generate (get_provider (default "meshy" (form_provider request)))
                   e (req_prompt request) (req_image e request)).1
                "ok"
                (provider_generate (get_provider (default "meshy" (form_provider request)))
                   e (req_prompt request) (req_image e request)).2
                0 None) Hinv); try reflexivity.
    apply get_provider_slug_known.
Qed.

Lemma mean_snoc_nonzero_score (m : Qc) : m ≠ 0%Qc -> Some m ≠ Some 0%Qc.
Proof. intros Hm Heq. apply Hm. injection Heq as ->. reflexivity. Qed.

Lemma feedback_keeps_invariant (conn : db) (gen_id rating : Z) (issues : list string)
    (comment : string) :
  store_invariant conn -> store_invariant (feedback conn gen_id rating issues comment).1.
Proof.
  intros Hinv.
  destruct (binds_generation_id conn gen_id && sqlite_integer rating) eqn:Hb;
    [|rewrite (feedback_unbound _ _ _ _ _ Hb); exact Hinv].
  apply andb_true_iff in Hb as [Hbind Hrange].
  destruct Hinv as [Hgi Hfi Hh Hs Ho Hl Hr].
  rewrite (feedback_store _ _ _ _ _ Hbind Hrange). cbv zeta.
  set (row := Feedback (next_id (List.map f_id (feedbacks conn))) gen_id rating issues
                (strip comment)).
  assert (Hconn1 : store_invariant
                     (Db (generations conn) (feedbacks conn ++ [row]) (prompt_cache conn))).
  { constructor; cbn [generations feedbacks prompt_cache]; try assumption.
    apply ids_snoc; [exact Hfi | reflexivity]. }
  destruct (select_generation conn gen_id) as [g|]; [|exact Hconn1].
  destruct (decide (mean (ratings_sharing_prompt conn (g_prompt g) ++ [rating]) = 0%Qc))
    as [Hz|Hz]; [exact Hconn1|].
  unfold update_quality. constructor; cbn [generations feedbacks prompt_cache].
  - exact Hgi.
  - apply ids_snoc; [exact Hfi | reflexivity].
  - rewrite List.map_map.
    erewrite List.map_ext; [exact Hh|].
    intros r. destruct (decide _); reflexivity.
  - intros r' Hin. apply list_elem_of_fmap in Hin as (r & -> & Hin).
    destruct (decide _); [apply mean_snoc_nonzero_score, Hz | apply Hs, Hin].
  - intros r' Hin. apply list_elem_of_fmap in Hin as (r & -> & Hin).
    destruct (Ho r Hin) as (g0 & Hg0 & Hrest). exists g0. split; [exact Hg0|].
    destruct (decide _); exact Hrest.
  - exact Hl.
  - exact Hr.
Qed.

Lemma reachable_invariant (conn : db) : reachable conn -> store_invariant conn.
Proof.
  induction 1 as [| e conn request _ IH | conn gen_id rating issues comment _ IH].
  - exact store_invariant_empty.
  - apply generate_keeps_invariant, IH.
  - apply feedback_keeps_invariant, IH.
Qed.

Lemma reachable_sample_store : reachable sample_store.
Proof. unfold sample_store. apply reachable_feedback, reachable_generate, reachable_empty. Qed.

(** X16. In a reachable store the ids of the ledger are 1, 2, ..., n in the
    order of insertion, and so are the ids of the feedback table. *)
Theorem reachable_ids_consecutive (conn : db) :
  reachable conn ->
  List.map g_id (generations conn) = List.map Z.of_nat (seq 1 (length (generations conn)))
  ∧ List.map f_id (feedbacks conn) = List.map Z.of_nat (seq 1 (length (feedbacks conn))).
Proof.
  intros Hr. destruct (reachable_invariant conn Hr) as [Hgi Hfi _ _ _ _ _].
  split; assumption.
Qed.

Lemma reachable_ids_consecutive_witness :
  List.map g_id (generations sample_store) = [1]
  ∧ List.map f_id (feedbacks sample_store) = [1].
Proof.
  destruct (reachable_ids_consecutive sample_store) as [Hg Hf].
  - unfold sample_store. apply reachable_feedback, reachable_generate, reachable_empty.
  - rewrite Hg, Hf. split; vm_compute; reflexivity.
Defined.

Lemma find_unique_hash (rows : list cache_row) (r : cache_row) :
  NoDup (List.map c_hash rows) -> r ∈ rows ->
  List.find (fun x => bool_decide (c_hash x = c_hash r)) rows = Some r.
Proof.
  induction rows as [|x rows IH]; intros Hnd Hin.
  - apply elem_of_nil in Hin. contradiction.
  - cbn [List.map] in Hnd. apply NoDup_cons in Hnd as [Hx Hnd]. cbn [List.find].
    apply elem_of_cons in Hin as [-> | Hin].
    + rewrite bool_decide_eq_true_2 by reflexivity. reflexivity.
    + rewrite bool_decide_eq_false_2; [apply IH; assumption|].
      intros Heq. apply Hx. rewrite Heq. apply list_elem_of_fmap.
      exists r. split; [reflexivity | exact Hin].
Qed.

(** X17. In a reachable store no two cache rows carry the same hash, and the
    exact lookup by the hash of a row returns that row. *)
Theorem reachable_hashes_unique (conn : db) :
  reachable conn ->
  NoDup (List.map c_hash (prompt_cache conn))
  ∧ ∀ r, r ∈ prompt_cache conn -> select_cache conn (c_hash r) = Some r.
Proof.
  intros Hr. destruct (reachable_invariant conn Hr) as [_ _ Hh _ _ _ _].
  split; [exact Hh|]. intros r Hin. apply find_unique_hash; assumption.
Qed.

Lemma reachable_hashes_unique_witness :
  NoDup (List.map c_hash (prompt_cache sample_store)).
Proof.
  apply (reachable_hashes_unique sample_store).
  unfold sample_store. apply reachable_feedback, reachable_generate, reachable_empty.
Defined.

(** ** Similarity reuse *)

(** In a store of three requests under [smart] the entry of the thirteen
    words has no score and shares twelve words of thirteen with the prompt,
    an overlap above [0.92]; the scan returns the entry of the twelve
    words, whose score is [3.0], and the request is generated afresh. *)
Lemma C2_shadowed_entry_counterexample :
  reachable shadow_db
  ∧ req_policy shadow_request = "smart"
  ∧ select_cache shadow_db (req_fingerprint demo_env shadow_request) = None
  ∧ ¬ good_entry_offered demo_env shadow_db shadow_request.
Proof.
  split; [apply reachable_generate, reachable_feedback, reachable_generate, reachable_empty|].
  split; [reflexivity|]. split; [vm_compute; reflexivity|].
  intros Hclaim. destruct (Hclaim shadowed_row) as (g & Hg & Hhit).
  - assert (Hrows : prompt_cache shadow_db !! 1%nat = Some shadowed_row)
      by (vm_compute; reflexivity).
    apply (list_elem_of_lookup_2 _ _ _ Hrows).
  - right. reflexivity.
  - vm_compute. discriminate.
  - vm_compute in Hg. injection Hg as <-. discriminate Hhit.
Qed.

(** C2, amended. On a store that the routes have produced, under [smart]
    with no exact row, similarity reuse (a record with [cache_hit = 2])
    happens exactly when the similarity scan at threshold [0.92] returns a
    row whose quality score, with [NULL] counted as [4.0], is at least
    [3.5]; the record then points at that row's model path, has duration
    [0], and no provider is called. A match with the score [3.0] is not
    reused, whatever its overlap; a row with the score [4.0] or [NULL] is
    reused when it is the match: the first row of the largest overlap, that
    overlap being at least [0.92]. *)
Theorem C2_similar_reuse_gate (e : env) (conn : db) (request : form) :
  reachable conn ->
  req_policy request = "smart" ->
  select_cache conn (req_fingerprint e request) = None ->
  let o := generate e conn request in
  let found := find_similar_prompt conn (req_prompt request) (Q2Qc 0.92) in
  ((∃ g, written o = Some g ∧ g_cache_hit g = 2)
   ↔ (∃ sim, found = Some sim ∧ (Q2Qc 3.5 ≤ null_as_4 (c_quality_score sim))%Qc))
  ∧ (∀ g, written o = Some g -> g_cache_hit g = 2 ->
          ∃ sim, found = Some sim
                 ∧ (Q2Qc 3.5 ≤ null_as_4 (c_quality_score sim))%Qc
                 ∧ generations (out_db o) = generations conn ++ [g]
                 ∧ g_model_path g = c_model_path sim
                 ∧ g_duration_ms g = 0
                 ∧ out_calls o = []
                 ∧ prompt_cache (out_db o) = prompt_cache conn)
  ∧ (∀ sim, found = Some sim -> c_quality_score sim = Some (Q2Qc 3.0) ->
            ∃ g, written o = Some g ∧ g_cache_hit g = 0)
  ∧ (∀ r, first_best (prompt_cache conn) (req_prompt request) r ->
          (Q2Qc 0.92 ≤ score (req_prompt request) r)%Qc ->
          c_quality_score r = Some (Q2Qc 4.0) ∨ c_quality_score r = None ->
          ∃ g, written o = Some g ∧ g_cache_hit g = 2
               ∧ g_model_path g = c_model_path r).
Proof.
  intros Hreach Hpol Hrow o found.
  destruct (reachable_invariant conn Hreach) as [_ _ _ Hs _ _ _].
  assert (Hgate : ∀ sim, sim ∈ prompt_cache conn ->
            or_default (c_quality_score sim) (Q2Qc 4.0) = null_as_4 (c_quality_score sim)).
  { intros sim Hin. specialize (Hs sim Hin). unfold or_default, null_as_4.
    destruct (c_quality_score sim) as [v|]; [|reflexivity].
    destruct (decide (v = 0%Qc)) as [->|]; [contradiction | reflexivity]. }
  assert (Hfresh : ∀ g, written (fresh_outcome e conn request) = Some g -> g_cache_hit g = 0).
  { intros g Hg. destruct (written_fresh e conn request) as (g' & Hg' & H0).
    rewrite Hg in Hg'. injection Hg' as ->. exact H0. }
  assert (Hbest : ∀ r, first_best (prompt_cache conn) (req_prompt request) r ->
            (Q2Qc 0.92 ≤ score (req_prompt request) r)%Qc -> found = Some r).
  { intros r Hfb Hle. apply (find_similar_prompt_best conn _ (Q2Qc 0.92)); [reflexivity|].
    split; [|split; [exact Hfb | exact Hle]].
    intros He. unfold score in Hle. rewrite He, jaccard_ratio_empty_l in Hle.
    apply Hle. reflexivity. }
  subst o found.
  destruct (find_similar_prompt conn (req_prompt request) (Q2Qc 0.92)) as [sim|] eqn:Hsim.
  - pose proof (find_similar_prompt_row _ _ _ _ Hsim) as [Hin _].
    destruct (decide (Q2Qc 3.5 ≤ or_default (c_quality_score sim) (Q2Qc 4.0))%Qc) as [Hq|Hq].
    + rewrite (generate_similar e conn request sim Hrow Hpol Hsim Hq).
      rewrite written_similar. rewrite (Hgate sim Hin) in Hq.
      split; [|split; [|split]].
      * split; [intros _; exists sim; split; [reflexivity | exact Hq]
               | intros _; eexists; split; reflexivity].
      * intros g Hg _. injection Hg as <-. exists sim.
        split; [reflexivity|]. split; [exact Hq|]. repeat split; reflexivity.
      * intros sim' Hs' H3. injection Hs' as <-. exfalso.
        rewrite H3 in Hq. apply Hq. reflexivity.
      * intros r Hfb Hle _. specialize (Hbest r Hfb Hle). injection Hbest as <-.
        eexists. repeat split; reflexivity.
    + rewrite (generate_gated e conn request sim Hrow Hpol Hsim Hq).
      rewrite (Hgate sim Hin) in Hq.
      split; [|split; [|split]].
      * split.
        -- intros (g & Hg & H2). rewrite (Hfresh g Hg) in H2. discriminate.
        -- intros (sim' & Hs' & Hq'). injection Hs' as <-. destruct (Hq Hq').
      * intros g Hg H2. rewrite (Hfresh g Hg) in H2. discriminate.
      * intros _ _ _. apply written_fresh.
      * intros r Hfb Hle Hgood. specialize (Hbest r Hfb Hle). injection Hbest as <-.
        destruct Hq. destruct Hgood as [-> | ->]; vm_compute; discriminate.
  - rewrite (generate_no_match e conn request Hrow Hpol Hsim).
    split; [|split; [|split]].
    + split.
      * intros (g & Hg & H2). rewrite (Hfresh g Hg) in H2. discriminate.
      * intros (sim' & Hs' & _). discriminate.
    + intros g Hg H2. rewrite (Hfresh g Hg) in H2. discriminate.
    + intros sim' Hs'. discriminate.
    + intros r Hfb Hle _. specialize (Hbest r Hfb Hle). discriminate.
Qed.

Lemma C2_similar_reuse_gate_witness :
  let o := generate demo_env red_dragon_store dragon_red_request in
  (∃ g, written o = Some g ∧ g_cache_hit g = 2)
  ↔ (∃ sim, find_similar_prompt red_dragon_store "dragon a red" (Q2Qc 0.92) = Some sim
            ∧ (Q2Qc 3.5 ≤ null_as_4 (c_quality_score sim))%Qc).
Proof.
  destruct (C2_similar_reuse_gate demo_env red_dragon_store dragon_red_request)
    as (Hiff & _).
  - apply reachable_generate, reachable_empty.
  - reflexivity.
  - vm_compute. reflexivity.
  - exact Hiff.
Defined.

(** X18. In a reachable store no quality score is [0.0], so there the gate
    of similarity reuse reads as the specification has it: under [smart]
    with no exact row, the record has [cache_hit = 2] exactly when the scan
    at threshold [0.92] returns a row whose score, with [NULL] counted as
    [4.0], is at least [3.5]. *)
Theorem reachable_gate_null_as_4 (e : env) (conn : db) (request : form) :
  reachable conn ->
  (∀ r, r ∈ prompt_cache conn -> c_quality_score r ≠ Some 0%Qc)
  ∧ (req_policy request = "smart" ->
     select_cache conn (req_fingerprint e request) = None ->
     ((∃ g, written (generate e conn request) = Some g ∧ g_cache_hit g = 2)
      ↔ (∃ sim, find_similar_prompt conn (req_prompt request) (Q2Qc 0.92) = Some sim
                ∧ (Q2Qc 3.5 ≤ null_as_4 (c_quality_score sim))%Qc))).
Proof.
  intros Hr. destruct (reachable_invariant conn Hr) as [_ _ _ Hs _ _ _].
  split; [exact Hs|]. intros Hpol Hrow.
  assert (Hgate : ∀ sim, sim ∈ prompt_cache conn ->
            or_default (c_quality_score sim) (Q2Qc 4.0) = null_as_4 (c_quality_score sim)).
  { intros sim Hin. specialize (Hs sim Hin). unfold or_default, null_as_4.
    destruct (c_quality_score sim) as [v|]; [|reflexivity].
    destruct (decide (v = 0%Qc)) as [->|]; [contradiction | reflexivity]. }
  assert (Hfresh : ∀ g, written (fresh_outcome e conn request) = Some g -> g_cache_hit g ≠ 2).
  { intros g Hg. rewrite written_fresh_record in Hg. injection Hg as <-. discriminate. }
  destruct (find_similar_prompt conn (req_prompt request) (Q2Qc 0.92)) as [sim|] eqn:Hsim.
  - pose proof (find_similar_prompt_row _ _ _ _ Hsim) as [Hin _].
    destruct (decide (Q2Qc 3.5 ≤ or_default (c_quality_score sim) (Q2Qc 4.0))%Qc) as [Hq|Hq].
    + rewrite (generate_similar e conn request sim Hrow Hpol Hsim Hq), written_similar.
      split; [|intros _; eexists; split; reflexivity].
      intros _. exists sim. split; [reflexivity|]. rewrite <- (Hgate sim Hin). exact Hq.
    + rewrite (generate_gated e conn request sim Hrow Hpol Hsim Hq). split.
      * intros (g & Hg & H2). destruct (Hfresh g Hg H2).
      * intros (sim' & Hs' & Hq'). injection Hs' as <-. destruct Hq.
        rewrite (Hgate sim Hin). exact Hq'.
  - rewrite (generate_no_match e conn request Hrow Hpol Hsim). split.
    + intros (g & Hg & H2). destruct (Hfresh g Hg H2).
    + intros (sim' & Hs' & _). discriminate.
Qed.

Lemma reachable_gate_null_as_4_witness :
  Forall (fun r => c_quality_score r ≠ Some 0%Qc) (prompt_cache sample_store).
Proof.
  apply List.Forall_forall. intros r Hin. apply list_elem_of_In in Hin. revert r Hin.
  apply (reachable_gate_null_as_4 demo_env sample_store (dragon_request "smart")).
  unfold sample_store. apply reachable_feedback, reachable_generate, reachable_empty.
Defined.

(** X29. In a reachable store the ids of the ledger are integers of SQLite
    as long as it holds fewer than [2^63] records, so a generation id binds
    exactly when it is such an integer: for any other id the detail page
    and the feedback form end in a server error, and the store stays as it
    was. *)
Theorem reachable_binds_sqlite_integer (conn : db) (gen_id : Z) :
  reachable conn ->
  Z.of_nat (length (generations conn)) < 2 ^ 63 ->
  binds_generation_id conn gen_id = sqlite_integer gen_id
  ∧ (sqlite_integer gen_id = false ->
     detail conn gen_id = Server_error
     ∧ ∀ rating issues comment,
         feedback conn gen_id rating issues comment = (conn, Server_error)).
Proof.
  intros Hreach Hlen.
  destruct (reachable_invariant conn Hreach) as [Hids _ _ _ _ _ _].
  assert (Hbind : binds_generation_id conn gen_id = sqlite_integer gen_id).
  { unfold binds_generation_id.
    destruct (sqlite_integer gen_id) eqn:Hint; [reflexivity|].
    cbn [orb]. apply bool_decide_eq_false_2. rewrite Hids. intros Hin.
    apply list_elem_of_fmap in Hin as (k & -> & Hk).
    apply list_elem_of_In, in_seq in Hk.
    assert (Hok : sqlite_integer (Z.of_nat k) = true) by (apply sqlite_integer_range; lia).
    rewrite Hok in Hint. discriminate. }
  split; [exact Hbind|]. intros Hint. split.
  - unfold detail. rewrite Hbind, Hint. reflexivity.
  - intros rating issues comment. apply feedback_unbound. rewrite Hbind, Hint. reflexivity.
Qed.

Lemma reachable_binds_sqlite_integer_witness :
  detail sample_store (2 ^ 63) = Server_error
  ∧ feedback sample_store (2 ^ 63) 5 [] "" = (sample_store, Server_error).
Proof.
  destruct (reachable_binds_sqlite_integer sample_store (2 ^ 63)) as [_ Hfail].
  - apply reachable_feedback, reachable_generate, reachable_empty.
  - vm_compute. reflexivity.
  - destruct Hfail as [Hd Hf]; [reflexivity|]. split; [exact Hd | apply Hf].
Defined.

(** X19. In a reachable store every cache row was written by a fresh
    generation that the ledger still holds: some record with
    [cache_hit = 0] has the row's hash as its fingerprint and the row's
    prompt, model path and provider. *)
Theorem reachable_cache_from_fresh (conn : db) (r : cache_row) :
  reachable conn ->
  r ∈ prompt_cache conn ->
  ∃ g, g ∈ generations conn
       ∧ g_cache_hit g = 0
       ∧ c_hash r = fingerprint (g_prompt g) (g_mode g) (g_image_path g)
       ∧ c_prompt r = g_prompt g
       ∧ c_model_path r = g_model_path g
       ∧ c_provider r = g_provider g.
Proof.
  intros Hr. destruct (reachable_invariant conn Hr) as [_ _ _ _ Ho _ _]. apply Ho.
Qed.

Lemma reachable_cache_from_fresh_witness :
  ∃ r g, r ∈ prompt_cache sample_store ∧ g ∈ generations sample_store
         ∧ g_cache_hit g = 0 ∧ c_model_path r = g_model_path g.
Proof.
  assert (Hin : Cache "a9c43be948c5cabd56ef2bacffb77cdaa5eec49dd5eb0cc4129cf3eda5f0e74c"
                  "dragon" "/app/static/models/a9c43be948c5_cube.obj" "mock"
                  (Some (mean [5]))
                ∈ prompt_cache sample_store).
  { assert (Hc : prompt_cache sample_store
                 = [Cache "a9c43be948c5cabd56ef2bacffb77cdaa5eec49dd5eb0cc4129cf3eda5f0e74c"
                      "dragon" "/app/static/models/a9c43be948c5_cube.obj" "mock"
                      (Some (mean [5]))]) by (vm_compute; reflexivity).
    rewrite Hc. apply list_elem_of_singleton. reflexivity. }
  destruct (reachable_cache_from_fresh sample_store _ reachable_sample_store Hin)
    as (g & Hg & Hhit & _ & _ & Hpath & _).
  eexists. exists g. split; [exact Hin|]. split; [exact Hg|]. split; [exact Hhit | exact Hpath].
Defined.

(** X20. In a reachable store every record of the ledger has the status
    [ok], no [reuse_of], and a [cache_hit] of 0, 1 or 2; a reuse has
    duration [0]; the label [cache-similar] marks exactly the records with
    [cache_hit = 2], and every other record is labelled with one of the
    four provider slugs. *)
Theorem reachable_ledger_wellformed (conn : db) (g : generation_row) :
  reachable conn ->
  g ∈ generations conn ->
  g_status g = "ok"
  ∧ g_reuse_of g = None
  ∧ (g_cache_hit g = 0 ∨ g_cache_hit g = 1 ∨ g_cache_hit g = 2)
  ∧ (g_cache_hit g ≠ 0 -> g_duration_ms g = 0)
  ∧ (g_cache_hit g = 2 ↔ g_provider g = "cache-similar")
  ∧ (g_cache_hit g ≠ 2 -> g_provider g ∈ ["mock"; "meshy"; "kaedim"; "tripoSR"]).
Proof.
  intros Hr. destruct (reachable_invariant conn Hr) as [_ _ _ _ _ Hl _]. apply Hl.
Qed.

(** X21. In a reachable store the asset of every reuse record was produced
    by an earlier fresh generation: some record with [cache_hit = 0] and a
    smaller id has the same model path. *)
Theorem reachable_reuse_from_fresh (conn : db) (g : generation_row) :
  reachable conn ->
  g ∈ generations conn ->
  g_cache_hit g ≠ 0 ->
  ∃ g0, g0 ∈ generations conn
        ∧ g_cache_hit g0 = 0
        ∧ g_model_path g0 = g_model_path g
        ∧ g_id g0 < g_id g.
Proof.
  intros Hr. destruct (reachable_invariant conn Hr) as [_ _ _ _ _ _ Hre]. apply Hre.
Qed.

Lemma reachable_sample_reuse_store : reachable sample_reuse_store.
Proof. unfold sample_reuse_store. apply reachable_generate, reachable_generate, reachable_empty. Qed.

Lemma sample_reuse_store_ledger :
  generations sample_reuse_store
  = [Generation 1 "dragon" "text" None "mock" "/app/static/models/a9c43be948c5_cube.obj"
       "ok" 12 0 None;
     Generation 2 "dragon" "text" None "mock" "/app/static/models/a9c43be948c5_cube.obj"
       "ok" 0 1 None].
Proof. vm_compute. reflexivity. Qed.

Lemma reachable_ledger_wellformed_witness :
  let g := Generation 2 "dragon" "text" None "mock"
             "/app/static/models/a9c43be948c5_cube.obj" "ok" 0 1 None in
  g ∈ generations sample_reuse_store
  ∧ g_status g = "ok" ∧ g_reuse_of g = None
  ∧ (g_cache_hit g ≠ 0 -> g_duration_ms g = 0).
Proof.
  cbv zeta.
  assert (Hin : Generation 2 "dragon" "text" None "mock"
                  "/app/static/models/a9c43be948c5_cube.obj" "ok" 0 1 None
                ∈ generations sample_reuse_store).
  { rewrite sample_reuse_store_ledger. apply elem_of_cons. right.
    apply list_elem_of_singleton. reflexivity. }
  destruct (reachable_ledger_wellformed sample_reuse_store _
              reachable_sample_reuse_store Hin) as (Hst & Hre & _ & Hdur & _).
  split; [exact Hin|]. split; [exact Hst|]. split; [exact Hre | exact Hdur].
Defined.

Lemma reachable_reuse_from_fresh_witness :
  ∃ g0, g0 ∈ generations sample_reuse_store
        ∧ g_cache_hit g0 = 0
        ∧ g_model_path g0 = "/app/static/models/a9c43be948c5_cube.obj"
        ∧ g_id g0 < 2.
Proof.
  apply (reachable_reuse_from_fresh sample_reuse_store
           (Generation 2 "dragon" "text" None "mock"
              "/app/static/models/a9c43be948c5_cube.obj" "ok" 0 1 None)).
  - unfold sample_reuse_store.
    apply reachable_generate, reachable_generate, reachable_empty.
  - rewrite sample_reuse_store_ledger. apply elem_of_cons. right.
    apply list_elem_of_singleton. reflexivity.
  - discriminate.
Defined.

(** ** The index page *)

Lemma sorted_seq (a n : nat) : StronglySorted Z.lt (List.map Z.of_nat (seq a n)).
Proof.
  revert a. induction n as [|n IH]; intros a; cbn [seq List.map]; constructor.
  - apply IH.
  - apply List.Forall_forall. intros x Hx. apply in_map_iff in Hx as (k & <- & Hk).
    apply in_seq in Hk. lia.
Qed.

Lemma insert_by_id_desc_smallest (g : generation_row) (l : list generation_row) :
  (∀ x, x ∈ l -> g_id g < g_id x) -> insert_by_id_desc g l = l ++ [g].
Proof.
  induction l as [|y l IH]; intros Hlt; [reflexivity|].
  cbn [insert_by_id_desc].
  assert (Hy : g_id g < g_id y) by (apply Hlt, elem_of_cons; left; reflexivity).
  destruct (g_id y <? g_id g) eqn:Hc; [apply Z.ltb_lt in Hc; lia|].
  cbn [app]. f_equal. apply IH. intros x Hx. apply Hlt, elem_of_cons. right. exact Hx.
Qed.

Lemma order_by_id_desc_sorted (l : list generation_row) :
  StronglySorted Z.lt (List.map g_id l) -> order_by_id_desc l = rev l.
Proof.
  induction l as [|x l IH]; intros Hs; [reflexivity|].
  cbn [List.map] in Hs. apply StronglySorted_inv in Hs as [Hs Hx].
  unfold order_by_id_desc in *. cbn [foldr rev]. rewrite (IH Hs).
  apply insert_by_id_desc_smallest. intros y Hy.
  apply list_elem_of_In, in_rev in Hy.
  rewrite List.Forall_forall in Hx. apply Hx, in_map, Hy.
Qed.

Lemma reachable_order_by_id_desc (conn : db) :
  reachable conn -> order_by_id_desc (generations conn) = rev (generations conn).
Proof.
  intros Hr. destruct (reachable_invariant conn Hr) as [Hgi _ _ _ _ _ _].
  apply order_by_id_desc_sorted. rewrite Hgi. apply sorted_seq.
Qed.

(** X22. On a reachable store the index page lists the records from the
    newest to the oldest, at most ten of them, and right after a call of
    [generate] the record just written comes first. *)
Theorem index_newest_first (e : env) (conn : db) (request : form) :
  reachable conn ->
  index conn = firstn 10 (rev (generations conn))
  ∧ ∃ g, written (generate e conn request) = Some g
         ∧ head (index (out_db (generate e conn request))) = Some g.
Proof.
  intros Hr. split.
  - unfold index. rewrite (reachable_order_by_id_desc conn Hr). reflexivity.
  - destruct (generate_record_shape e conn request) as (g & Hg & _).
    exists g. split; [unfold written; rewrite Hg; apply last_snoc|].
    unfold index.
    rewrite (reachable_order_by_id_desc _ (reachable_generate e conn request Hr)).
    rewrite Hg, rev_unit. reflexivity.
Qed.

Lemma index_newest_first_witness :
  index sample_reuse_store = rev (generations sample_reuse_store).
Proof.
  destruct (index_newest_first demo_env sample_reuse_store (dragon_request "never"))
    as [Hidx _].
  - unfold sample_reuse_store.
    apply reachable_generate, reachable_generate, reachable_empty.
  - rewrite Hidx, sample_reuse_store_ledger. reflexivity.
Defined.

(** ** Edge cases of a request *)

(** A request whose fingerprint an earlier request has, after that request
    was answered under a policy other than [smart], is an exact reuse. *)
Lemma same_fingerprint_exact_reuse (e1 e2 : env) (conn : db) (request1 request2 : form) :
  req_fingerprint e2 request2 = req_fingerprint e1 request1 ->
  req_policy request1 ≠ "smart" ->
  req_policy request2 = "always" ∨ req_policy request2 = "smart" ->
  ∃ g1 g2,
    written (generate e1 conn request1) = Some g1
    ∧ written (generate e2 (out_db (generate e1 conn request1)) request2) = Some g2
    ∧ g_cache_hit g2 = 1
    ∧ g_model_path g2 = g_model_path g1
    ∧ g_duration_ms g2 = 0
    ∧ out_calls (generate e2 (out_db (generate e1 conn request1)) request2) = [].
Proof.
  intros Hfp Hp1 Hp2.
  destruct (generate_cases_detailed e1 conn request1)
    as [(r & Hrow & _ & Hc) | [(sim & _ & Hs & _) | (Hc & _)]];
    [| contradiction |]; rewrite Hc.
  - assert (Hrow2 : select_cache (out_db (exact_outcome e1 conn request1 r))
                      (req_fingerprint e2 request2) = Some r)
      by (rewrite Hfp; exact Hrow).
    rewrite (generate_exact e2 _ request2 r Hrow2 Hp2), !written_exact.
    eexists. eexists. repeat split; reflexivity.
  - pose proof (select_cache_fresh e1 conn request1) as Hrow2. rewrite <- Hfp in Hrow2 at 1.
    rewrite (generate_exact e2 _ request2 _ Hrow2 Hp2), written_exact, written_fresh_record.
    eexists. eexists. repeat split; reflexivity.
Qed.

(** X23. The stored name of an upload is made of the second of arrival and
    the lowered extension only. Two image requests with one prompt whose
    files, whatever they hold and however they are called, arrive in the
    same second with the same lowered extension get the same stored path;
    after the first was answered under a policy other than [smart], the
    second, under [always] or [smart], is an exact reuse of its asset. *)
Theorem same_second_uploads_collide (e1 e2 : env) (conn : db) (request1 request2 : form)
    (name1 name2 : string) :
  req_mode request1 = "image" -> req_mode request2 = "image" ->
  form_image request1 = Some name1 -> form_image request2 = Some name2 ->
  name1 ≠ "" -> name2 ≠ "" ->
  lower (splitext_ext name1) = lower (splitext_ext name2) ->
  UPLOAD_DIR e1 = UPLOAD_DIR e2 -> time_s e1 = time_s e2 ->
  req_prompt request1 = req_prompt request2 ->
  req_policy request1 ≠ "smart" ->
  req_policy request2 = "always" ∨ req_policy request2 = "smart" ->
  req_image e1 request1 = req_image e2 request2
  ∧ ∃ g1 g2,
      written (generate e1 conn request1) = Some g1
      ∧ written (generate e2 (out_db (generate e1 conn request1)) request2) = Some g2
      ∧ g_cache_hit g2 = 1
      ∧ g_model_path g2 = g_model_path g1.
Proof.
  intros Hm1 Hm2 Hf1 Hf2 Hn1 Hn2 Hext Hdir Htime Hprompt Hp1 Hp2.
  assert (Himg : req_image e1 request1 = req_image e2 request2).
  { unfold req_image, upload_path. rewrite Hm1, Hm2, Hf1, Hf2.
    rewrite !(decide_True (P := "image" = "image")) by reflexivity.
    rewrite (decide_False (P := name1 = "")) by exact Hn1.
    rewrite (decide_False (P := name2 = "")) by exact Hn2.
    rewrite Hext, Hdir, Htime. reflexivity. }
  split; [exact Himg|].
  assert (Hfp : req_fingerprint e2 request2 = req_fingerprint e1 request1).
  { unfold req_fingerprint. rewrite Himg, Hprompt, Hm1, Hm2. reflexivity. }
  destruct (same_fingerprint_exact_reuse e1 e2 conn request1 request2 Hfp Hp1 Hp2)
    as (g1 & g2 & H1 & H2 & Hhit & Hpath & _).
  exists g1, g2. repeat split; assumption.
Qed.

Lemma same_second_uploads_collide_witness :
  let request1 := Form (Some "image") (Some "x") None (Some "never") (Some "cat.PNG") in
  let request2 := Form (Some "image") (Some "x") None (Some "always") (Some "dog.png") in
  req_image demo_env request1 = req_image demo_env request2
  ∧ ∃ g1 g2,
      written (generate demo_env empty_db request1) = Some g1
      ∧ written (generate demo_env (out_db (generate demo_env empty_db request1)) request2)
        = Some g2
      ∧ g_cache_hit g2 = 1
      ∧ g_model_path g2 = g_model_path g1.
Proof.
  apply (same_second_uploads_collide demo_env demo_env empty_db
           (Form (Some "image") (Some "x") None (Some "never") (Some "cat.PNG"))
           (Form (Some "image") (Some "x") None (Some "always") (Some "dog.png"))
           "cat.PNG" "dog.png");
    try reflexivity; try discriminate.
  left. reflexivity.
Defined.

Lemma find_similar_prompt_empty_cache (conn : db) (p : string) (threshold : Qc) :
  prompt_cache conn = [] -> find_similar_prompt conn p threshold = None.
Proof.
  intros Hc. unfold find_similar_prompt. rewrite Hc.
  destruct (decide (tokens_of p = ∅)); reflexivity.
Qed.

(** X24. While the cache is empty every request is generated afresh,
    whatever its policy: the record has [cache_hit = 0], one provider is
    called, and the cache then holds the one row of the request's
    fingerprint, with no quality score. *)
Theorem empty_cache_generates_fresh (e : env) (conn : db) (request : form) :
  prompt_cache conn = [] ->
  let o := generate e conn request in
  ∃ g, written o = Some g
       ∧ g_cache_hit g = 0
       ∧ out_calls o = [(g_provider g, req_prompt request, req_image e request)]
       ∧ prompt_cache (out_db o)
         = [Cache (req_fingerprint e request) (req_prompt request) (g_model_path g)
              (g_provider g) None].
Proof.
  intros Hc o. subst o.
  assert (Hrow : select_cache conn (req_fingerprint e request) = None)
    by (unfold select_cache; rewrite Hc; reflexivity).
  assert (Hgen : generate e conn request = fresh_outcome e conn request).
  { rewrite generate_unfold, Hrow, (find_similar_prompt_empty_cache conn _ _ Hc).
    destruct (bool_decide _); reflexivity. }
  rewrite Hgen, written_fresh_record. eexists. split; [reflexivity|].
  split; [reflexivity|]. split; [reflexivity|].
  unfold fresh_outcome, upsert_cache. cbn [out_db prompt_cache g_model_path g_provider].
  change (select_cache (Db _ (feedbacks conn) (prompt_cache conn)) (req_fingerprint e request))
    with (select_cache conn (req_fingerprint e request)).
  rewrite Hrow, Hc, get_provider_generate. reflexivity.
Qed.

Lemma empty_cache_generates_fresh_witness :
  ∃ g, written (generate demo_env empty_db (dragon_request "always")) = Some g
       ∧ g_cache_hit g = 0.
Proof.
  destruct (empty_cache_generates_fresh demo_env empty_db (dragon_request "always"))
    as (g & Hg & Hhit & _).
  - reflexivity.
  - exists g. split; [exact Hg | exact Hhit].
Defined.

Lemma split_all_space (p : string) : all_space p = true -> split (lower p) = [].
Proof.
  intros Hp. unfold split. rewrite split_from_all_space; [reflexivity|].
  rewrite all_space_lower. exact Hp.
Qed.

(** X25. A prompt without a word, empty or of white space only, is never
    answered by similarity reuse: under [smart] with no exact row for its
    fingerprint the request is generated afresh, whatever the cache
    holds. *)
Theorem blank_prompt_never_similar (e : env) (conn : db) (request : form) :
  all_space (req_prompt request) = true ->
  req_policy request = "smart" ->
  select_cache conn (req_fingerprint e request) = None ->
  find_similar_prompt conn (req_prompt request) (Q2Qc 0.92) = None
  ∧ ∃ g, written (generate e conn request) = Some g ∧ g_cache_hit g = 0.
Proof.
  intros Hblank Hpol Hrow.
  assert (Hsim : find_similar_prompt conn (req_prompt request) (Q2Qc 0.92) = None).
  { unfold find_similar_prompt.
    assert (Ht : tokens_of (req_prompt request) = ∅).
    { unfold tokens_of. rewrite split_normalize_prompt, (split_all_space _ Hblank).
      reflexivity. }
    rewrite decide_True by exact Ht. reflexivity. }
  split; [exact Hsim|].
  rewrite (generate_no_match e conn request Hrow Hpol Hsim), written_fresh_record.
  eexists. split; reflexivity.
Qed.

Lemma blank_prompt_never_similar_witness :
  let request := Form (Some "text") (Some "  ") (Some "mock") (Some "smart") None in
  ∃ g, written (generate demo_env (red_dragon_db None) request) = Some g ∧ g_cache_hit g = 0.
Proof.
  apply (blank_prompt_never_similar demo_env (red_dragon_db None)
           (Form (Some "text") (Some "  ") (Some "mock") (Some "smart") None)).
  - reflexivity.
  - reflexivity.
  - vm_compute. reflexivity.
Defined.

(** X26. Outside the mode [image] an attached file is ignored: no image
    path is stored and the whole outcome is that of the same request
    without the file. *)
Theorem upload_ignored_outside_image_mode (e : env) (conn : db) (request : form) :
  req_mode request ≠ "image" ->
  req_image e request = None
  ∧ generate e conn request
    = generate e conn
        (Form (form_mode request) (form_prompt request) (form_provider request)
           (form_reuse_policy request) None).
Proof.
  intros Hm.
  assert (Himg : ∀ image, upload_path e (req_mode request) image = None).
  { intros [name|]; [|reflexivity]. unfold upload_path.
    rewrite decide_False by exact Hm. reflexivity. }
  split; [apply Himg|].
  unfold generate. cbn [form_mode form_prompt form_provider form_reuse_policy form_image].
  fold (req_mode request). rewrite !Himg. reflexivity.
Qed.

Lemma upload_ignored_outside_image_mode_witness :
  generate demo_env empty_db
    (Form (Some "text") (Some "dragon") (Some "mock") (Some "smart") (Some "cat.png"))
  = generate demo_env empty_db (dragon_request "smart").
Proof.
  apply (upload_ignored_outside_image_mode demo_env empty_db
           (Form (Some "text") (Some "dragon") (Some "mock") (Some "smart") (Some "cat.png"))).
  discriminate.
Defined.

(** ** The shape of a fingerprint *)

Lemma length_string_of_list_ascii (l : list ascii) :
  String.length (string_of_list_ascii l) = length l.
Proof. induction l as [|c l IH]; simpl; [reflexivity | rewrite IH; reflexivity]. Qed.

Lemma length_flat_map_const {A B} (f : A -> list B) (n : nat) (l : list A) :
  (∀ x, length (f x) = n) -> length (flat_map f l) = (n * length l)%nat.
Proof.
  intros Hf. induction l as [|x l IH]; cbn [flat_map length]; [lia|].
  rewrite length_app, Hf, IH. lia.
Qed.

Lemma length_be_bytes (n : nat) (x : Z) : length (SHA256.be_bytes n x) = n.
Proof. unfold SHA256.be_bytes. rewrite length_map, length_rev, length_seq. reflexivity. Qed.

Lemma length_fold_compress (blocks : list (list Z)) (h : list Z) :
  length h = 8%nat -> length (fold_left SHA256.compress blocks h) = 8%nat.
Proof.
  revert h. induction blocks as [|b blocks IH]; intros h Hh; [exact Hh|].
  cbn [fold_left]. apply IH. reflexivity.
Qed.

Lemma length_sha256_hexdigest (b : list Z) : String.length (sha256_hexdigest b) = 64%nat.
Proof.
  unfold sha256_hexdigest, SHA256.hex_of_bytes, SHA256.digest. cbv zeta.
  rewrite length_string_of_list_ascii.
  rewrite (length_flat_map_const _ 2) by reflexivity.
  rewrite (length_flat_map_const _ 4) by (intros x; apply length_be_bytes).
  rewrite length_fold_compress by reflexivity. reflexivity.
Qed.

(** X27. Every fingerprint is a text of 64 characters, whatever the prompt,
    the mode and the image. *)
Theorem fingerprint_length (prompt mode : string) (image_path : option string) :
  String.length (fingerprint prompt mode image_path) = 64%nat.
Proof. unfold fingerprint, prompt_hash. apply length_sha256_hexdigest. Qed.
